(** * Ignite bulk uploader: the upload/poll state machine of [src/App.tsx]

    A shallow embedding of the component's event handlers.  Every handler of
    the source runs to completion between two [await]s on one thread, so an
    [async] function is cut at its [await]s into handlers that transform an
    explicit application state; the responses of the network and the timer
    ticks are the events that drive them.  Strings are the UTF-8 encodings
    of the well-formed strings of the source. *)

From Stdlib Require Import Floats Ascii String ZArith.
From stdpp Require Import gmap strings list fin_maps pretty.

Open Scope string_scope.

(** ** The JavaScript values and operations the handlers use *)

Module JS.

(** Response bodies are typed [any] in the source: whatever [JSON.parse]
    gives, or a string.  A number is a double; an object lists its own
    properties in the order of the engine, with distinct keys. *)
#[warnings="-register-all"]
Inductive jsval :=
  | JUndefined
  | JNull
  | JBool (b : bool)
  | JNum (x : float)
  | JStr (s : string)
  | JArr (xs : list jsval)
  | JObj (fields : list (string * jsval)).

(** A number that is falsy: zero or NaN. *)
Definition falsy_num (x : float) : bool :=
  PrimFloat.eqb x 0 || PrimFloat.is_nan x.

(** ToBoolean. *)
Definition truthy (v : jsval) : bool :=
  match v with
  | JUndefined | JNull => false
  | JBool b => b
  | JNum x => negb (falsy_num x)
  | JStr s => negb (String.eqb s "")
  | JArr _ | JObj _ => true
  end.

(** [a || b] and [a && b], both operands already evaluated. *)
Definition or (a b : jsval) : jsval := if truthy a then a else b.
Definition and (a b : jsval) : jsval := if truthy a then b else a.

(** [a || b] on two strings. *)
Definition or_string (a b : string) : string :=
  if String.eqb a "" then b else a.

(** Reading a property of [null] or [undefined] throws a TypeError. *)
Definition nullish (v : jsval) : bool :=
  match v with JUndefined | JNull => true | _ => false end.

Fixpoint assoc (k : string) (fields : list (string * jsval)) : jsval :=
  match fields with
  | [] => JUndefined
  | (k', v) :: rest => if String.eqb k k' then v else assoc k rest
  end.

Definition has_key (k : string) (fields : list (string * jsval)) : bool :=
  existsb (fun kv => String.eqb k (fst kv)) fields.

(** [v.k] for the data properties the source reads ([status],
    [encodingStatus], [message], [error]) of a value that is not [null] or
    [undefined]: primitives and arrays have none of them. *)
Definition prop (v : jsval) (k : string) : jsval :=
  match v with
  | JObj fields => assoc k fields
  | _ => JUndefined
  end.

Fixpoint join (sep : string) (parts : list string) : string :=
  match parts with
  | [] => ""
  | [p] => p
  | p :: rest => p ++ sep ++ join sep rest
  end.

(** *** Number::toString, radix 10 *)

(** The number of decimal digits before the point: the [n] with
    [10^(n-1) <= a/b < 10^n], for positive [a] and [b]. *)
Fixpoint scale_up (fuel : nat) (a b : Z) (j : Z) : Z :=
  match fuel with
  | O => j
  | S fuel => if (b <=? a)%Z then j else scale_up fuel (a * 10)%Z b (j - 1)%Z
  end.

Definition decimal_exponent (a b : Z) : Z :=
  if (b <=? a)%Z then Z.of_nat (String.length (pretty (Z.to_N (a / b))))
  else scale_up 400 (a * 10)%Z b 0%Z.

(** [dec_count] digits [dec_digits], to be read with the point after the
    first [dec_exponent] of them. *)
Record Decimal := { dec_digits : Z; dec_count : Z; dec_exponent : Z }.

(** The decimals of [k] digits next to the double [m * 2^e], kept when the
    double is their nearest one; everything is counted in quarters of the
    last binary place. *)
Definition shortest_step (m e : Z) (n0 k : Z) : option Decimal :=
  let un := if (2 <=? e)%Z then (2 ^ (e - 2))%Z else 1%Z in
  let ud := if (2 <=? e)%Z then 1%Z else (2 ^ (2 - e))%Z in
  let p := (n0 - k)%Z in
  let pn := if (0 <=? p)%Z then (10 ^ p)%Z else 1%Z in
  let pd := if (0 <=? p)%Z then 1%Z else (10 ^ (- p))%Z in
  let gap_below := if (m =? 2 ^ 52)%Z && (-1074 <? e)%Z then 1%Z else 2%Z in
  let v := (4 * m * un * pd)%Z in
  let hi := ((4 * m + 2) * un * pd)%Z in
  let lo := ((4 * m - gap_below) * un * pd)%Z in
  let c s := (s * pn * ud)%Z in
  let inside s := if Z.even m then (lo <=? c s)%Z && (c s <=? hi)%Z
                  else (lo <? c s)%Z && (c s <? hi)%Z in
  let s1 := (v / (pn * ud))%Z in
  let s2 := (s1 + 1)%Z in
  let pick s :=
    if (s =? 10 ^ k)%Z
    then {| dec_digits := (10 ^ (k - 1))%Z; dec_count := k;
            dec_exponent := n0 + 1 |}
    else {| dec_digits := s; dec_count := k; dec_exponent := n0 |} in
  match inside s1, inside s2 with
  | true, true =>
      let d1 := (v - c s1)%Z in
      let d2 := (c s2 - v)%Z in
      if (d1 <? d2)%Z then Some (pick s1)
      else if (d2 <? d1)%Z then Some (pick s2)
      else if Z.even s1 then Some (pick s1) else Some (pick s2)
  | true, false => Some (pick s1)
  | false, true => Some (pick s2)
  | false, false => None
  end.

(** The shortest such decimal; 17 digits always do. *)
Fixpoint shortest (fuel : nat) (m e n0 k : Z) : Decimal :=
  match fuel with
  | O => {| dec_digits := m; dec_count := k; dec_exponent := n0 |}
  | S fuel =>
      match shortest_step m e n0 k with
      | Some d => d
      | None => shortest fuel m e n0 (k + 1)%Z
      end
  end.

Fixpoint zeros (n : nat) : string :=
  match n with O => "" | S n => String "0" (zeros n) end.

Definition format_decimal (d : Decimal) : string :=
  let ds := pretty (Z.to_N (dec_digits d)) in
  let k := dec_count d in
  let n := dec_exponent d in
  if (k <=? n)%Z && (n <=? 21)%Z then ds ++ zeros (Z.to_nat (n - k))
  else if (0 <? n)%Z && (n <=? 21)%Z
  then substring 0 (Z.to_nat n) ds ++ "."
       ++ substring (Z.to_nat n) (String.length ds - Z.to_nat n) ds
  else if (-6 <? n)%Z && (n <=? 0)%Z
  then "0." ++ zeros (Z.to_nat (- n)) ++ ds
  else
    let ex := (n - 1)%Z in
    let sign := if (ex <? 0)%Z then "-" else "+" in
    let mant := if (k =? 1)%Z then ds
                else substring 0 1 ds ++ "."
                     ++ substring 1 (String.length ds - 1) ds in
    mant ++ "e" ++ sign ++ pretty (Z.abs_N ex).

Definition Number_toString (x : float) : string :=
  match Prim2SF x with
  | S754_nan => "NaN"
  | S754_zero _ => "0"
  | S754_infinity s => if s then "-Infinity" else "Infinity"
  | S754_finite s m e =>
      let a := if (0 <=? e)%Z then (Zpos m * 2 ^ e)%Z else Zpos m in
      let b := if (0 <=? e)%Z then 1%Z else (2 ^ (- e))%Z in
      let d := shortest 17 (Zpos m) e (decimal_exponent a b) 1 in
      (if s then "-" else "") ++ format_decimal d
  end.

(** *** ToString *)

(** What [v.toString()] and a template literal give for [v]; [None] when
    they throw a TypeError, which is when an object that has to be converted
    has a property [toString] of its own: no JSON value can be called. *)
Fixpoint toString (v : jsval) : option string :=
  match v with
  | JUndefined => Some "undefined"
  | JNull => Some "null"
  | JBool true => Some "true"
  | JBool false => Some "false"
  | JNum x => Some (Number_toString x)
  | JStr s => Some s
  | JArr xs =>
      let fix elements (l : list jsval) : option (list string) :=
        match l with
        | [] => Some []
        | x :: rest =>
            match (if nullish x then Some "" else toString x) with
            | Some s =>
                match elements rest with
                | Some ss => Some (s :: ss)
                | None => None
                end
            | None => None
            end
        end in
      match elements xs with
      | Some parts => Some (join "," parts)
      | None => None
      end
  | JObj fields =>
      if has_key "toString" fields then None else Some "[object Object]"
  end.

(** *** JSON.stringify *)

Definition hex_digit (n : nat) : ascii :=
  ascii_of_nat (if (n <? 10)%nat then 48 + n else 87 + n).

Definition escape_char (c : ascii) : string :=
  let n := nat_of_ascii c in
  let bs := String "092"%char in
  if (n =? 34)%nat then bs (String c "")
  else if (n =? 92)%nat then bs (String c "")
  else if (n =? 8)%nat then bs "b"
  else if (n =? 9)%nat then bs "t"
  else if (n =? 10)%nat then bs "n"
  else if (n =? 12)%nat then bs "f"
  else if (n =? 13)%nat then bs "r"
  else if (n <? 32)%nat then
    bs ("u00" ++ String (hex_digit (n / 16)) (String (hex_digit (n mod 16)) ""))
  else String c "".

Fixpoint escape (s : string) : string :=
  match s with
  | EmptyString => ""
  | String c rest => escape_char c ++ escape rest
  end.

Definition quote (s : string) : string :=
  String "034"%char (escape s ++ String "034"%char "").

(** [None] is the [undefined] that JSON.stringify returns for [undefined];
    a number that is not finite is written [null]. *)
Fixpoint stringify (v : jsval) : option string :=
  match v with
  | JUndefined => None
  | JNull => Some "null"
  | JBool true => Some "true"
  | JBool false => Some "false"
  | JNum x =>
      Some (if PrimFloat.is_nan x || PrimFloat.is_infinity x then "null"
            else Number_toString x)
  | JStr s => Some (quote s)
  | JArr xs =>
      Some ("[" ++ join "," (List.map (fun x => default "null" (stringify x)) xs)
                ++ "]")
  | JObj fields =>
      let member kv :=
        match stringify (snd kv) with
        | Some s => [quote (fst kv) ++ ":" ++ s]
        | None => []
        end in
      Some ("{" ++ join "," (List.concat (List.map member fields)) ++ "}")
  end.

Definition JSON_stringify (v : jsval) : jsval :=
  match stringify v with Some s => JStr s | None => JUndefined end.

(** *** Strings *)

(** String.prototype.toLowerCase, for comparing with words of ASCII
    letters: the ASCII capitals are mapped, every other byte is kept.  No
    other character is lowered to an ASCII letter of the words compared
    with below, so the comparison comes out as in the source. *)
Definition lower_char (c : ascii) : ascii :=
  let n := nat_of_ascii c in
  if (65 <=? n)%nat && (n <=? 90)%nat then ascii_of_nat (n + 32) else c.

Fixpoint toLowerCase (s : string) : string :=
  match s with
  | EmptyString => EmptyString
  | String c rest => String (lower_char c) (toLowerCase rest)
  end.

(** Array.prototype.includes on strings. *)
Definition includes (l : list string) (s : string) : bool :=
  existsb (String.eqb s) l.

(** One white space or line terminator of ECMAScript at the head of [s],
    taken off: U+0009 to U+000D, U+0020, U+00A0, U+1680, U+2000 to U+200A,
    U+2028, U+2029, U+202F, U+205F, U+3000 and U+FEFF. *)
Definition white_prefix (s : string) : option string :=
  match s with
  | EmptyString => None
  | String c1 r1 =>
      let a := nat_of_ascii c1 in
      if ((9 <=? a)%nat && (a <=? 13)%nat) || (a =? 32)%nat then Some r1
      else
        match r1 with
        | EmptyString => None
        | String c2 r2 =>
            let b := nat_of_ascii c2 in
            if (a =? 194)%nat && (b =? 160)%nat then Some r2
            else
              match r2 with
              | EmptyString => None
              | String c3 r3 =>
                  let d := nat_of_ascii c3 in
                  if ((a =? 225)%nat && (b =? 154)%nat && (d =? 128)%nat)
                     || ((a =? 226)%nat && (b =? 128)%nat
                         && (((128 <=? d)%nat && (d <=? 138)%nat)
                             || (d =? 168)%nat || (d =? 169)%nat
                             || (d =? 175)%nat))
                     || ((a =? 226)%nat && (b =? 129)%nat && (d =? 159)%nat)
                     || ((a =? 227)%nat && (b =? 128)%nat && (d =? 128)%nat)
                     || ((a =? 239)%nat && (b =? 187)%nat && (d =? 191)%nat)
                  then Some r3
                  else None
              end
        end
  end.

Fixpoint trimStart_upto (fuel : nat) (s : string) : string :=
  match fuel with
  | O => s
  | S fuel =>
      match white_prefix s with
      | Some rest => trimStart_upto fuel rest
      | None => s
      end
  end.

Definition trimStart (s : string) : string :=
  trimStart_upto (String.length s) s.

(** Nothing but white space. *)
Definition all_white (s : string) : bool := String.eqb (trimStart s) "".

(** A white space never begins inside a character, so the white end of
    [s] begins at the first byte from which all is white. *)
Fixpoint trimEnd (s : string) : string :=
  match s with
  | EmptyString => EmptyString
  | String c rest => if all_white s then EmptyString else String c (trimEnd rest)
  end.

(** String.prototype.trim. *)
Definition trim (s : string) : string := trimEnd (trimStart s).

(** *** Math.round *)

(** The nearest integer, a tie going up.  A finite double is [m * 2^e]; one
    with [e >= 0] is an integer already, and the others are below [2^53],
    where every integer is a double.  Zeros and values that round to zero
    from below keep their sign. *)
Definition Math_round (x : float) : float :=
  match Prim2SF x with
  | S754_finite s m e =>
      if (0 <=? e)%Z then x
      else
        let k := (- e)%Z in
        let sm := if s then Zneg m else Zpos m in
        let z := ((2 * sm + 2 ^ k) / 2 ^ (k + 1))%Z in
        if (z =? 0)%Z then (if s then PrimFloat.neg_zero else PrimFloat.zero)
        else
          let r := PrimFloat.of_uint63 (Uint63.of_Z (Z.abs z)) in
          if (z <? 0)%Z then PrimFloat.opp r else r
  | _ => x
  end.

End JS.

Import JS.

(** ** Data model (lines 5-26) *)

Inductive UploadStage :=
  | pending | creating | uploading | uploaded | polling | done | error.

(** What the handlers read of a browser [File]. *)
Record File := { name : string; type : string }.

Record UploadItem := {
  id : string;
  file : File;
  title : string;
  progressPercent : float;
  stage : UploadStage;
  statusText : string;
  videoId : option string;
  errorMessage : option string;
}.

Definition MAX_FILES : nat := 10.

(** The object spreads [{ ...prev, field: v }] of the updaters. *)
Definition with_stage (st : UploadStage) (prev : UploadItem) : UploadItem :=
  {| id := id prev; file := file prev; title := title prev;
     progressPercent := progressPercent prev; stage := st;
     statusText := statusText prev; videoId := videoId prev;
     errorMessage := errorMessage prev |}.

Definition with_statusText (txt : string) (prev : UploadItem) : UploadItem :=
  {| id := id prev; file := file prev; title := title prev;
     progressPercent := progressPercent prev; stage := stage prev;
     statusText := txt; videoId := videoId prev;
     errorMessage := errorMessage prev |}.

Definition with_progressPercent (p : float) (prev : UploadItem) : UploadItem :=
  {| id := id prev; file := file prev; title := title prev;
     progressPercent := p; stage := stage prev;
     statusText := statusText prev; videoId := videoId prev;
     errorMessage := errorMessage prev |}.

Definition with_videoId (v : string) (prev : UploadItem) : UploadItem :=
  {| id := id prev; file := file prev; title := title prev;
     progressPercent := progressPercent prev; stage := stage prev;
     statusText := statusText prev; videoId := Some v;
     errorMessage := errorMessage prev |}.

Definition with_errorMessage (m : string) (prev : UploadItem) : UploadItem :=
  {| id := id prev; file := file prev; title := title prev;
     progressPercent := progressPercent prev; stage := stage prev;
     statusText := statusText prev; videoId := videoId prev;
     errorMessage := Some m |}.

(** The list transformer that [updateItem] hands to [setItems] (lines 105-110). *)
Definition updateItem (itemId : string) (updater : UploadItem -> UploadItem)
    (prev : list UploadItem) : list UploadItem :=
  List.map (fun it => if String.eqb (id it) itemId then updater it else it) prev.

(** ** Errors (lines 255-269) *)

Record Response := { status : N; data : jsval }.

(** A thrown value as [extractAxiosError] reads it: the response if one came,
    whether a request object is attached, and the message. *)
Record AxiosError := {
  response : option Response;
  request : bool;
  message : string;
}.

(** [None]: the template literal of line 263 throws. *)
Definition extractAxiosError (err : AxiosError) : option string :=
  match response err with
  | Some r =>
      let data := data r in
      let msg :=
        JS.or (JS.and data
                 (JS.or (JS.or (prop data "message") (prop data "error"))
                        (JSON_stringify data)))
              (JStr "Request failed") in
      match toString msg with
      | Some m => Some (pretty (status r) ++ ": " ++ m)
      | None => None
      end
  | None =>
      if request err then Some "No response from server"
      else Some (or_string (message err) "Unknown error")
  end.

(** ** Timers of the window

    [setInterval] hands out handles that are positive integers, each one new;
    an interval stays active until [clearInterval] is given its handle.  Every
    interval of this program calls [run] of [pollVideoStatus] for the item id
    and video id that [Poll] records. *)

Record Poll := { poll_item : string; poll_video : string }.

Record Window := { active : gmap N Poll; next : N }.

Definition setInterval (p : Poll) (w : Window) : N * Window :=
  (next w, {| active := <[next w := p]> (active w); next := N.succ (next w) |}).

Definition clearInterval (t : N) (w : Window) : Window :=
  {| active := delete t (active w); next := next w |}.

(** [if (t) window.clearInterval(t)] on the result of [Map.get]: nothing for
    [undefined] and for the falsy handle 0. *)
Definition clearIfSet (t : option N) (w : Window) : Window :=
  match t with
  | Some h => if (h =? 0)%N then w else clearInterval h w
  | None => w
  end.

(** ** Application state *)

(** Where the async function of one item (lines 207-241) is waiting. *)
Inductive Await :=
  | AwaitCreate
  | AwaitUpload (videoId signedUrl : string)
  | Settled
  | Rejected.

(** One promise made by [items.map] in [startUploads], with the [item] its
    closure captured. *)
Record Task := { item : UploadItem; awaiting : Await }.

Record App := {
  token : string;
  files : list File;
  items : list UploadItem;
  isUploading : bool;
  pollTimers : gmap string N;   (* pollTimersRef.current *)
  window : Window;
  uploads : list Task;          (* the promises of every run, oldest first *)
  awaited : nat;                (* where those of the latest run begin *)
  requests : list Poll;         (* status requests that have not answered yet *)
}.

Definition init : App :=
  {| token := ""; files := []; items := []; isUploading := false;
     pollTimers := ∅; window := {| active := ∅; next := 1 |};
     uploads := []; awaited := 0; requests := [] |}.

Definition setToken (t : string) (s : App) : App :=
  {| token := t; files := files s; items := items s;
     isUploading := isUploading s; pollTimers := pollTimers s;
     window := window s; uploads := uploads s; awaited := awaited s;
     requests := requests s |}.

Definition setItems (f : list UploadItem -> list UploadItem) (s : App) : App :=
  {| token := token s; files := files s; items := f (items s);
     isUploading := isUploading s; pollTimers := pollTimers s;
     window := window s; uploads := uploads s; awaited := awaited s;
     requests := requests s |}.

Definition setFiles (fs : list File) (s : App) : App :=
  {| token := token s; files := fs; items := items s;
     isUploading := isUploading s; pollTimers := pollTimers s;
     window := window s; uploads := uploads s; awaited := awaited s;
     requests := requests s |}.

Definition setIsUploading (b : bool) (s : App) : App :=
  {| token := token s; files := files s; items := items s;
     isUploading := b; pollTimers := pollTimers s;
     window := window s; uploads := uploads s; awaited := awaited s;
     requests := requests s |}.

Definition setTimers (m : gmap string N) (w : Window) (s : App) : App :=
  {| token := token s; files := files s; items := items s;
     isUploading := isUploading s; pollTimers := m;
     window := w; uploads := uploads s; awaited := awaited s;
     requests := requests s |}.

Definition setUploads (ts : list Task) (from : nat) (s : App) : App :=
  {| token := token s; files := files s; items := items s;
     isUploading := isUploading s; pollTimers := pollTimers s;
     window := window s; uploads := ts; awaited := from;
     requests := requests s |}.

Definition setRequests (rs : list Poll) (s : App) : App :=
  {| token := token s; files := files s; items := items s;
     isUploading := isUploading s; pollTimers := pollTimers s;
     window := window s; uploads := uploads s; awaited := awaited s;
     requests := rs |}.

(** ** File selection (lines 63-73, 88-103) *)

(** [clock idx] is what [Date.now()] reads while the item at [idx] is built. *)
Definition newItem (clock : nat -> N) (idx : nat) (f : File) : UploadItem :=
  {| id := pretty (clock idx) ++ "-" ++ pretty idx ++ "-" ++ name f;
     file := f; title := name f; progressPercent := 0%float;
     stage := pending; statusText := "Pending";
     videoId := None; errorMessage := None |}.

Definition handleFilesSelected (chosen : list File) (clock : nat -> N)
    (s : App) : App :=
  let selected := take MAX_FILES chosen in
  setItems (fun _ => imap (newItem clock) selected) (setFiles selected s).

Definition canUpload (s : App) : bool :=
  (0 <? String.length (trim (token s)))%nat
  && (0 <? length (items s))%nat
  && negb (isUploading s).

(** ** Upload progress (lines 127-140) *)

Record ProgressEvent := { loaded : float; total : option float }.

(** [Math.round((evt.loaded / evt.total) * 100)]. *)
Definition percent (loaded total : float) : float :=
  Math_round (PrimFloat.mul (PrimFloat.div loaded total) 100).

(** The callback given to axios; [it] is the item that
    [uploadToSignedUrl] was called with. *)
Definition onUploadProgress (it : UploadItem) (evt : ProgressEvent)
    (s : App) : App :=
  match total evt with
  | None => s
  | Some t =>
      if falsy_num t then s
      else setItems (updateItem (id it)
                       (with_progressPercent (percent (loaded evt) t))) s
  end.

(** ** Polling (lines 142-200) *)

Definition doneStatuses : list string :=
  ["encoded"; "ready"; "finished"; "complete"; "completed"].

Definition errorStatuses : list string := ["failed"; "error"].

(** [get], [if (t) clearInterval(t)], [delete] of lines 174-176 and 183-185. *)
Definition stopTimer (itemId : string) (s : App) : App :=
  setTimers (delete itemId (pollTimers s))
            (clearIfSet (pollTimers s !! itemId) (window s)) s.

(** The [catch] of [run] (lines 187-193).  When [extractAxiosError] throws
    in it, the promise of [run] is rejected, nobody handles that, and nothing
    was written. *)
Definition run_catch (itemId : string) (err : AxiosError) (s : App) : App :=
  match extractAxiosError err with
  | Some message =>
      setItems (updateItem itemId (with_statusText ("Poll error: " ++ message))) s
  | None => s
  end.

(** Lines 155-160: [None] when reading [data.status] throws, which it does
    of [null] and of [undefined], and when the call of [toString] throws. *)
Definition normalize (data : jsval) : option string :=
  if nullish data then None
  else
    match toString (JS.or (JS.or (prop data "status")
                                 (prop data "encodingStatus")) (JStr "")) with
    | Some status => Some (or_string status "processing")
    | None => None
    end.

(** The TypeError that lines 155-159 throw for [data], as the [catch] reads
    it.  The message is the engine's own; these are the words of V8. *)
Definition TypeError_status (data : jsval) : AxiosError :=
  {| response := None; request := false;
     message :=
       match data with
       | JUndefined => "Cannot read properties of undefined (reading 'status')"
       | JNull => "Cannot read properties of null (reading 'status')"
       | _ =>
           match JS.or (prop data "status") (prop data "encodingStatus") with
           | JObj _ => "(data.status || data.encodingStatus || " ++ quote ""
                       ++ ").toString is not a function"
           | _ => "Cannot convert object to primitive value"
           end
       end |}.

(** [run] once the response is there (lines 154-186). *)
Definition run_then (itemId : string) (data : jsval) (s : App) : App :=
  match normalize data with
  | None => run_catch itemId (TypeError_status data) s
  | Some normalized =>
      let s := setItems (updateItem itemId (with_statusText normalized)) s in
      if includes doneStatuses (toLowerCase normalized) then
        stopTimer itemId (setItems (updateItem itemId (with_stage done)) s)
      else if includes errorStatuses (toLowerCase normalized) then
        stopTimer itemId
          (setItems (updateItem itemId
                       (fun prev => with_errorMessage ("Encoding " ++ normalized)
                                      (with_stage error prev))) s)
      else s
  end.

(** [pollVideoStatus]: clear the interval already registered, call [run],
    which sends its request, then start and register the new interval. *)
Definition pollVideoStatus (itemId videoId : string) (s : App) : App :=
  let p := {| poll_item := itemId; poll_video := videoId |} in
  let w := clearIfSet (pollTimers s !! itemId) (window s) in
  let s := setRequests (requests s ++ [p]) s in
  let '(timerId, w) := setInterval p w in
  setTimers (<[itemId := timerId]> (pollTimers s)) w s.

(** ** The pipeline of one item (lines 207-241) *)

Definition item_start (it : UploadItem) (s : App) : App :=
  setItems (updateItem (id it)
              (fun prev => with_statusText "Creating video…"
                             (with_stage creating prev))) s.

Definition item_created (it : UploadItem) (videoId : string) (s : App) : App :=
  setItems (updateItem (id it)
              (fun prev => with_statusText "Uploading…"
                             (with_stage uploading (with_videoId videoId prev)))) s.

(** The updater of lines 223-228. *)
Definition mark_uploaded (prev : UploadItem) : UploadItem :=
  with_progressPercent 100%float
    (with_statusText "Uploaded. Starting to poll…" (with_stage uploaded prev)).

Definition item_uploaded (it : UploadItem) (videoId : string) (s : App) : App :=
  let s := setItems (updateItem (id it) mark_uploaded) s in
  let s := setItems (updateItem (id it) (with_stage polling)) s in
  pollVideoStatus (id it) videoId s.

(** The [catch] of lines 232-240; [None] when [extractAxiosError] throws in
    it, which rejects the promise of the item before anything is written. *)
Definition item_catch (it : UploadItem) (err : AxiosError)
    (s : App) : option App :=
  match extractAxiosError err with
  | Some message =>
      Some (setItems (updateItem (id it)
                        (fun prev => with_statusText "Error"
                                       (with_errorMessage message
                                          (with_stage error prev)))) s)
  | None => None
  end.

(** ** startUploads and clearAll (lines 202-253) *)

(** Up to the [await]: the busy flag, and each item's function run to its
    first [await], in the order of the list.  The promises of earlier runs
    that are still pending go on. *)
Definition startUploads (s : App) : App :=
  if canUpload s then
    let s1 := setIsUploading true s in
    let s2 := foldl (fun acc it => item_start it acc) s1 (items s) in
    setUploads (uploads s
                ++ List.map (fun it => {| item := it; awaiting := AwaitCreate |})
                            (items s))%list
               (length (uploads s)) s2
  else s.

Definition settled (t : Task) : bool :=
  match awaiting t with Settled => true | _ => false end.

Definition rejected (t : Task) : bool :=
  match awaiting t with Rejected => true | _ => false end.

(** The promises that the [Promise.all] of the latest run was given. *)
Definition current (s : App) : list Task := drop (awaited s) (uploads s).

Definition clearAll (s : App) : App :=
  let w := map_fold (fun _ t w => clearInterval t w) (window s) (pollTimers s) in
  setItems (fun _ => []) (setFiles [] (setTimers ∅ w s)).

(** ** Events

    What can happen between two handlers: the user acts, a request of the
    pipeline of task [k] answers or fails, axios reports upload progress, the
    [Promise.all] is fulfilled because every promise it was given is, or is
    rejected because one of them is - either way the [finally] of line 243
    runs -, an interval fires, a status request answers or fails.  [step] is
    [None] when the event cannot happen in that state. *)

Inductive event :=
  | SelectFiles (chosen : list File) (clock : nat -> N)
  | SetToken (t : string)
  | StartUploads
  | Created (k : nat) (videoId signedUrl : string)
  | Progress (k : nat) (evt : ProgressEvent)
  | Uploaded (k : nat)
  | Failed (k : nat) (err : AxiosError)
  | AllSettled
  | AnyRejected
  | Tick (t : N)
  | PollResponse (k : nat) (data : jsval)
  | PollError (k : nat) (err : AxiosError)
  | ClearAll.

Definition setAwaiting (k : nat) (a : Await) (s : App) : App :=
  setUploads (alter (fun t => {| item := item t; awaiting := a |}) k (uploads s))
             (awaited s) s.

Definition step (s : App) (e : event) : option App :=
  match e with
  | SelectFiles chosen clock => Some (handleFilesSelected chosen clock s)
  | SetToken t => Some (setToken t s)
  | StartUploads => Some (startUploads s)
  | Created k videoId signedUrl =>
      match uploads s !! k with
      | Some {| item := it; awaiting := AwaitCreate |} =>
          Some (setAwaiting k (AwaitUpload videoId signedUrl)
                  (item_created it videoId s))
      | _ => None
      end
  | Progress k evt =>
      match uploads s !! k with
      | Some {| item := it; awaiting := AwaitUpload _ _ |} =>
          Some (onUploadProgress it evt s)
      | _ => None
      end
  | Uploaded k =>
      match uploads s !! k with
      | Some {| item := it; awaiting := AwaitUpload videoId _ |} =>
          Some (setAwaiting k Settled (item_uploaded it videoId s))
      | _ => None
      end
  | Failed k err =>
      match uploads s !! k with
      | Some {| item := it; awaiting := AwaitCreate |}
      | Some {| item := it; awaiting := AwaitUpload _ _ |} =>
          match item_catch it err s with
          | Some s' => Some (setAwaiting k Settled s')
          | None => Some (setAwaiting k Rejected s)
          end
      | _ => None
      end
  | AllSettled =>
      if isUploading s && forallb settled (current s)
      then Some (setIsUploading false s) else None
  | AnyRejected =>
      if isUploading s && existsb rejected (current s)
      then Some (setIsUploading false s) else None
  | Tick t =>
      match active (window s) !! t with
      | Some p => Some (setRequests (requests s ++ [p]) s)
      | None => None
      end
  | PollResponse k data =>
      match requests s !! k with
      | Some p => Some (run_then (poll_item p) data
                          (setRequests (delete k (requests s)) s))
      | None => None
      end
  | PollError k err =>
      match requests s !! k with
      | Some p => Some (run_catch (poll_item p) err
                          (setRequests (delete k (requests s)) s))
      | None => None
      end
  | ClearAll => Some (clearAll s)
  end.

Fixpoint run (s : App) (es : list event) : option App :=
  match es with
  | [] => Some s
  | e :: es => match step s e with Some s' => run s' es | None => None end
  end.

Inductive reachable : App -> Prop :=
  | reach_init : reachable init
  | reach_step s e s' : reachable s -> step s e = Some s' -> reachable s'.

(** ** Statements and inputs used below *)

(** One text for every error of a kind. *)
Definition fixed_rendering (kind : AxiosError -> Prop) : Prop :=
  exists text, forall err, kind err -> extractAxiosError err = Some text.

(** No response and no request: the request could not be sent. *)
Definition unsent (err : AxiosError) : Prop :=
  response err = None /\ request err = false.

Definition unsent_error : AxiosError :=
  {| response := None; request := false; message := "Network Error" |}.

Definition empty_body_error : AxiosError :=
  {| response := Some {| status := 502; data := JStr "" |};
     request := true; message := "Request failed with status code 502" |}.

Definition conflict_error : AxiosError :=
  {| response := Some {| status := 409;
                         data := JObj [("code", JNum 21); ("error", JStr "")] |};
     request := true; message := "Request failed with status code 409" |}.

(** A refusal whose body has an object for [message], and in it a property
    called [toString]. *)
Definition unrenderable : AxiosError :=
  {| response :=
       Some {| status := 500;
               data := JObj [("message", JObj [("toString", JNum 1)])] |};
     request := true; message := "Request failed with status code 500" |}.

Definition sample_file : File := {| name := "a.mp4"; type := "video/mp4" |}.

Definition sample_item : UploadItem :=
  {| id := "1-0-a.mp4"; file := sample_file; title := "a.mp4";
     progressPercent := 0%float; stage := pending; statusText := "Pending";
     videoId := None; errorMessage := None |}.

Definition sample_items : list UploadItem :=
  [sample_item;
   {| id := "1-1-b.mp4"; file := {| name := "b.mp4"; type := "" |};
      title := "b.mp4"; progressPercent := 0%float; stage := pending;
      statusText := "Pending"; videoId := None; errorMessage := None |}].

(** Every active interval is the one registered for its item, and the
    registered handles are positive and were handed out already. *)
Definition timers_ok (s : App) : Prop :=
  (0 < next (window s))%N
  /\ (forall t p, active (window s) !! t = Some p ->
                  pollTimers s !! poll_item p = Some t)
  /\ (forall i t, pollTimers s !! i = Some t ->
                  (0 < t < next (window s))%N).

Definition unauthorized : AxiosError :=
  {| response := Some {| status := 401;
                         data := JObj [("message", JStr "invalid token")] |};
     request := true; message := "Request failed with status code 401" |}.

(** Two files are selected and uploaded; the first reaches [polling], the
    create request of the second is refused. *)
Definition first_run : list event :=
  [ SetToken "secret";
    SelectFiles [sample_file; {| name := "b.mp4"; type := "" |}] (fun _ => 1%N);
    StartUploads;
    Created 0 "v0" "https://bucket.example/0";
    Failed 1 unauthorized;
    Progress 0 {| loaded := 50; total := Some 200%float |};
    Uploaded 0;
    AllSettled ].

Definition after_first_run : App := default init (run init first_run).

Definition ready_body : jsval := JObj [("status", JStr "Ready")].

(** The user presses Upload All again while the first file is being polled;
    its first status request has not answered yet. *)
Definition second_run : list event :=
  first_run ++ [StartUploads; Created 2 "v1" "https://bucket.example/1"].

Definition during_second_upload : App := default init (run init second_run).

Definition early_progress : ProgressEvent :=
  {| loaded := 60; total := Some 200%float |}.

(** While an item is uploading its percentage never goes down. *)
Definition never_drops_while_uploading : Prop :=
  forall s e s' j it it',
    reachable s -> step s e = Some s' ->
    items s !! j = Some it -> items s' !! j = Some it' ->
    stage it = uploading -> stage it' = uploading ->
    PrimFloat.ltb (progressPercent it') (progressPercent it) = false.

(** From [uploaded] on the percentage is 100. *)
Definition complete_once_uploaded : Prop :=
  forall s it,
    reachable s -> it ∈ items s ->
    stage it = uploaded \/ stage it = polling \/ stage it = done ->
    progressPercent it = 100%float.

(** ** Settings and selection outside the state machine *)

Definition DEFAULT_API_BASE : string := "https://app.ignitevideo.cloud/api".

(** [apiBase.replace(/\/$/, '')] (line 60): a slash that ends the string is
    taken away, once. *)
Fixpoint apiBaseSanitized (apiBase : string) : string :=
  match apiBase with
  | EmptyString => EmptyString
  | String c rest =>
      match rest with
      | EmptyString => if Ascii.eqb c "/" then EmptyString else apiBase
      | String _ _ => String c (apiBaseSanitized rest)
      end
  end.

(** The token and the API base as the component holds them, and the effects
    that tie them to [localStorage] (lines 38-58).  [getItem] of a missing
    key is [null]. *)
Record Settings := { stored_token : string; stored_apiBase : string }.

Definition initial_settings : Settings :=
  {| stored_token := ""; stored_apiBase := DEFAULT_API_BASE |}.

(** The effect that runs once after mounting. *)
Definition loadSettings (localStorage : gmap string string)
    (cur : Settings) : Settings :=
  let tok := match localStorage !! "ignite_token" with
             | Some stored => if String.eqb stored "" then stored_token cur
                              else stored
             | None => stored_token cur
             end in
  let base := match localStorage !! "ignite_api_base" with
              | Some storedBase =>
                  if String.eqb storedBase "" then stored_apiBase cur
                  else storedBase
              | None => stored_apiBase cur
              end in
  {| stored_token := tok; stored_apiBase := base |}.

(** The two effects that run when the token or the API base changed. *)
Definition persistToken (tok : string)
    (localStorage : gmap string string) : gmap string string :=
  if String.eqb tok "" then localStorage
  else <["ignite_token" := tok]> localStorage.

Definition persistApiBase (base : string)
    (localStorage : gmap string string) : gmap string string :=
  if String.eqb base "" then localStorage
  else <["ignite_api_base" := base]> localStorage.

(** The warning [handleFilesSelected] sets (lines 93-100). *)
Definition selectionWarning (all : list File) : string :=
  if (MAX_FILES <? length all)%nat
  then "You selected " ++ pretty (length all) ++ " files. Only the first "
       ++ pretty MAX_FILES ++ " will be used."
  else "".

(** The cleanup that runs when the component unmounts (lines 76-81). *)
Definition unmount (s : App) : App :=
  setTimers ∅ (map_fold (fun _ timerId w => clearInterval timerId w)
                        (window s) (pollTimers s)) s.

(** Steps that put a new list in place of the items. *)
Definition replaces_items (e : event) : bool :=
  match e with
  | SelectFiles _ _ | ClearAll => true
  | _ => false
  end.

(** What identifies an item to the user. *)
Definition identity (it : UploadItem) : string * File * string :=
  (id it, file it, title it).

(** An item in [error] shows a message. *)
Definition error_has_message (it : UploadItem) : Prop :=
  stage it = error -> exists m, errorMessage it = Some m /\ m <> "".

Fixpoint dash_free (s : string) : Prop :=
  match s with
  | EmptyString => True
  | String c rest => c <> "-"%char /\ dash_free rest
  end.

Definition three_files : list File :=
  [sample_file; sample_file; {| name := "b.mp4"; type := "" |}].

(** [updated x x']: [x'] is [x] after some of the updaters of the handlers,
    in any number and order. *)
Inductive updated (x : UploadItem) : UploadItem -> Prop :=
  | updated_none : updated x x
  | updated_statusText x' txt :
      updated x x' -> updated x (with_statusText txt x')
  | updated_stage x' st :
      st <> error -> updated x x' -> updated x (with_stage st x')
  | updated_error x' m :
      m <> "" -> updated x x' ->
      updated x (with_errorMessage m (with_stage error x'))
  | updated_videoId x' v :
      updated x x' -> updated x (with_videoId v x')
  | updated_progressPercent x' p :
      updated x x' -> updated x (with_progressPercent p x').

(** Every entry of the registry names an interval that is active and calls
    [run] for the entry's item. *)
Definition registry_live (s : App) : Prop :=
  forall i t, pollTimers s !! i = Some t ->
    exists v, active (window s) !! t = Some {| poll_item := i; poll_video := v |}.

(** ** The status words, as the specification has them *)

(** [c] is the small letter [d] or its capital. *)
Definition same_letter (c d : ascii) : Prop :=
  c = d \/ (nat_of_ascii c + 32)%nat = nat_of_ascii d.

(** [s] is the word [w], itself in small letters, in some letter case. *)
Fixpoint spells (s w : string) : Prop :=
  match s, w with
  | EmptyString, EmptyString => True
  | String c s, String d w => same_letter c d /\ spells s w
  | _, _ => False
  end.

Definition one_of (words : list string) (s : string) : Prop :=
  exists w, w ∈ words /\ spells s w.

Definition done_words : list string :=
  ["encoded"; "ready"; "finished"; "complete"; "completed"].

Definition error_words : list string := ["failed"; "error"].

(** The fields that no status response and no failure writes. *)
Definition same_upload (it it' : UploadItem) : Prop :=
  id it' = id it /\ file it' = file it /\ title it' = title it
  /\ progressPercent it' = progressPercent it /\ videoId it' = videoId it.

(** A response without a status shows as "processing". *)
Definition missing_status_is_processing : Prop :=
  forall s itemId data j it,
    reachable s -> items s !! j = Some it -> id it = itemId ->
    (forall fields, data = JObj fields ->
       assoc "status" fields = JUndefined
       /\ assoc "encodingStatus" fields = JUndefined) ->
    exists it', items (run_then itemId data s) !! j = Some it'
                /\ statusText it' = "processing".

(** A promise that is neither fulfilled nor rejected. *)
Definition in_flight (t : Task) : Prop :=
  awaiting t <> Settled /\ awaiting t <> Rejected.

(** Two files are selected and sent off; the first is created, and the
    create request of the second is refused with a body that has no
    rendering. *)
Definition rejecting_run : list event :=
  [ SetToken "secret";
    SelectFiles [sample_file; {| name := "b.mp4"; type := "" |}] (fun _ => 1%N);
    StartUploads;
    Created 0 "v0" "https://bucket.example/0";
    Failed 1 unrenderable ].

(** ** White space, as ECMAScript lists it *)

Definition utf8 (bytes : list nat) : string :=
  string_of_list_ascii (List.map ascii_of_nat bytes).

(** The white space and the line terminators: U+0009 to U+000D, U+0020,
    U+00A0, U+1680, U+2000 to U+200A, U+2028, U+2029, U+202F, U+205F, U+3000
    and U+FEFF. *)
Definition white_spaces : list string :=
  List.map utf8
    [ [9]; [10]; [11]; [12]; [13]; [32]; [194; 160]; [225; 154; 128];
      [226; 128; 128]; [226; 128; 129]; [226; 128; 130]; [226; 128; 131];
      [226; 128; 132]; [226; 128; 133]; [226; 128; 134]; [226; 128; 135];
      [226; 128; 136]; [226; 128; 137]; [226; 128; 138];
      [226; 128; 168]; [226; 128; 169]; [226; 128; 175];
      [226; 129; 159]; [227; 128; 128]; [239; 187; 191] ].

(** A string of white space and nothing else. *)
Inductive white_only : string -> Prop :=
  | white_only_empty : white_only ""
  | white_only_more w s :
      w ∈ white_spaces -> white_only s -> white_only (w ++ s).

(** A token that is one no-break space. *)
Definition blank_token : string := utf8 [194; 160].

(** A word in small ASCII letters. *)
Fixpoint small (w : string) : bool :=
  match w with
  | EmptyString => true
  | String d w =>
      (97 <=? nat_of_ascii d)%nat && (nat_of_ascii d <=? 122)%nat && small w
  end.


(** The run that the busy flag belongs to is over when the flag is down:
    every promise of it is fulfilled, or one of them is rejected. *)
Definition run_over (s : App) : Prop :=
  (forall i t, uploads s !! (awaited s + i)%nat = Some t -> awaiting t = Settled)
  \/ (exists i t, uploads s !! (awaited s + i)%nat = Some t /\ awaiting t = Rejected).


(** ** Doubles *)





(** * Properties *)

(** ** Strings and values *)

Lemma append_nonempty_r (a b : string) : b ≠ "" → a ++ b ≠ "".
Proof. destruct a; simpl; [done | discriminate]. Qed.

Lemma append_nonempty_l (a b : string) : a ≠ "" → a ++ b ≠ "".
Proof. destruct a; simpl; [done | discriminate]. Qed.

Lemma pretty_N_go_grows (x : N) (s : string) :
  (String.length s <= String.length (pretty_N_go x s))%nat.
Proof.
  revert s. induction (N.lt_wf_0 x) as [x _ IH]; intros s.
  destruct (decide (x = 0%N)) as [->|Hx]; [by rewrite pretty_N_go_0|].
  rewrite pretty_N_go_step by lia.
  etrans; [|apply IH, N.div_lt; lia]. simpl; lia.
Qed.

Lemma pretty_N_nonempty (x : N) : pretty x ≠ "".
Proof.
  unfold pretty, pretty_N. case_decide; [done|].
  rewrite pretty_N_go_step by lia. intros E.
  pose proof (pretty_N_go_grows (x `div` 10)
                (String (pretty_N_char (x `mod` 10)) "")) as L.
  rewrite E in L. simpl in L. lia.
Qed.

Lemma eqb_empty_false (s : string) : s ≠ "" → String.eqb s "" = false.
Proof. by intros; apply String.eqb_neq. Qed.

Lemma format_decimal_nonempty (d : Decimal) : format_decimal d ≠ "".
Proof.
  unfold format_decimal. repeat case_match.
  - apply append_nonempty_l, pretty_N_nonempty.
  - by apply append_nonempty_r, append_nonempty_l.
  - by apply append_nonempty_l.
  - by apply append_nonempty_r, append_nonempty_l.
  - by apply append_nonempty_r, append_nonempty_l.
  - by apply append_nonempty_r, append_nonempty_l.
  - by apply append_nonempty_r, append_nonempty_l.
Qed.

Lemma Number_toString_nonempty (x : float) : Number_toString x ≠ "".
Proof.
  unfold Number_toString. destruct (Prim2SF x) as [| [] | |s m e]; try done.
  apply append_nonempty_r, format_decimal_nonempty.
Qed.

Lemma stringify_truthy (v : jsval) :
  truthy v = true → ∃ s, stringify v = Some s ∧ s ≠ "".
Proof.
  destruct v as [| |[]|x|s|xs|fields]; simpl; try done; eauto.
  intros _. eexists; split; [done|].
  case_match; [done|apply Number_toString_nonempty].
Qed.

Lemma or_truthy (a b : jsval) : truthy a = true → JS.or a b = a.
Proof. unfold JS.or. by intros ->. Qed.

Lemma or_falsy (a b : jsval) : truthy a = false → JS.or a b = b.
Proof. unfold JS.or. by intros ->. Qed.

Lemma or_string_nonempty (a b : string) : b ≠ "" → or_string a b ≠ "".
Proof. unfold or_string. by destruct (String.eqb_spec a ""). Qed.

(** ** updateItem *)

Lemma updateItem_length (itemId : string) (updater : UploadItem → UploadItem)
    (prev : list UploadItem) :
  length (updateItem itemId updater prev) = length prev.
Proof. apply List.length_map. Qed.

Lemma updateItem_lookup (itemId : string) (updater : UploadItem → UploadItem)
    (prev : list UploadItem) (j : nat) :
  updateItem itemId updater prev !! j
  = (λ it, if decide (id it = itemId) then updater it else it) <$> prev !! j.
Proof.
  revert j. induction prev as [|it prev IH]; intros [|j]; simpl; try done.
  f_equal. destruct (String.eqb_spec (id it) itemId); by case_decide.
Qed.

Lemma updateItem_absent (itemId : string) (updater : UploadItem → UploadItem)
    (prev : list UploadItem) :
  (∀ it, it ∈ prev → id it ≠ itemId) → updateItem itemId updater prev = prev.
Proof.
  induction prev as [|it prev IH]; intros Hno; simpl; [done|].
  rewrite (proj2 (String.eqb_neq _ _) (Hno it (list_elem_of_here _ _))).
  f_equal. apply IH. intros it' Hin. apply Hno. by apply list_elem_of_further.
Qed.

(** C9: [updateItem id f] replaces exactly the items whose id is [id] by [f]
    of them, keeps every other item, the length and the order, and changes
    nothing when no item has the id. *)
Theorem updateItem_frame (itemId : string) (updater : UploadItem → UploadItem)
    (prev : list UploadItem) :
  length (updateItem itemId updater prev) = length prev
  ∧ (∀ j it, prev !! j = Some it →
       updateItem itemId updater prev !! j
       = Some (if decide (id it = itemId) then updater it else it))
  ∧ ((∀ it, it ∈ prev → id it ≠ itemId) →
       updateItem itemId updater prev = prev).
Proof.
  split; [apply updateItem_length|]. split; [|apply updateItem_absent].
  intros j it Hj. by rewrite updateItem_lookup, Hj.
Qed.

Lemma updateItem_frame_witness :
  updateItem "gone" (with_stage done) sample_items = sample_items
  ∧ updateItem "1-0-a.mp4" (with_stage done) sample_items !! 0%nat
    = Some (with_stage done sample_item).
Proof.
  destruct (updateItem_frame "gone" (with_stage done) sample_items)
    as (_ & _ & Habsent).
  destruct (updateItem_frame "1-0-a.mp4" (with_stage done) sample_items)
    as (_ & Hat & _).
  split.
  - apply Habsent. intros it Hin Heq. unfold sample_items in Hin.
    apply elem_of_cons in Hin as [->|Hin]; [discriminate Heq|].
    apply elem_of_cons in Hin as [->|Hin]; [discriminate Heq|].
    inversion Hin.
  - by rewrite (Hat 0%nat sample_item eq_refl).
Defined.

(** ** extractAxiosError *)

(** The value that lines 261-262 pick of a response body. *)
Lemma extractAxiosError_chosen (data : jsval) :
  JS.or (JS.and data
           (JS.or (JS.or (prop data "message") (prop data "error"))
                  (JSON_stringify data)))
        (JStr "Request failed")
  = if truthy data then
      if truthy (prop data "message") then prop data "message"
      else if truthy (prop data "error") then prop data "error"
           else JSON_stringify data
    else JStr "Request failed".
Proof.
  unfold JS.and. destruct (truthy data) eqn:Hd; [|by rewrite (or_falsy _ _ Hd)].
  destruct (stringify_truthy _ Hd) as (s & Hs & Hne).
  assert (Hj : truthy (JSON_stringify data) = true).
  { unfold JSON_stringify. rewrite Hs. simpl. by rewrite (eqb_empty_false _ Hne). }
  destruct (truthy (prop data "message")) eqn:Hm.
  { by rewrite (or_truthy _ _ Hm), !(or_truthy _ _ Hm). }
  rewrite (or_falsy _ _ Hm).
  destruct (truthy (prop data "error")) eqn:He.
  { by rewrite (or_truthy _ _ He), !(or_truthy _ _ He). }
  rewrite (or_falsy _ _ He). by rewrite (or_truthy _ _ Hj).
Qed.

Lemma prop_truthy (data : jsval) (k : string) :
  truthy (prop data k) = true → truthy data = true.
Proof. by destruct data. Qed.

Lemma extractAxiosError_message (err : AxiosError) (r : Response) (m : string) :
  response err = Some r → prop (data r) "message" = JStr m → m ≠ "" →
  extractAxiosError err = Some (pretty (status r) ++ ": " ++ m).
Proof.
  intros Hr Hm Hne. unfold extractAxiosError. rewrite Hr.
  rewrite extractAxiosError_chosen.
  assert (Ht : truthy (prop (data r) "message") = true).
  { rewrite Hm. simpl. by rewrite (eqb_empty_false _ Hne). }
  by rewrite (prop_truthy _ _ Ht), Ht, Hm.
Qed.

Lemma extractAxiosError_message_field (err : AxiosError) (r : Response)
    (m : string) (rest : list (string * jsval)) :
  response err = Some r → data r = JObj (("message", JStr m) :: rest) →
  m ≠ "" → extractAxiosError err = Some (pretty (status r) ++ ": " ++ m).
Proof.
  intros Hr Hd. apply (extractAxiosError_message err r m Hr). by rewrite Hd.
Qed.

Lemma extractAxiosError_error (err : AxiosError) (r : Response) (m : string) :
  response err = Some r → truthy (prop (data r) "message") = false →
  prop (data r) "error" = JStr m → m ≠ "" →
  extractAxiosError err = Some (pretty (status r) ++ ": " ++ m).
Proof.
  intros Hr Hno Hm Hne. unfold extractAxiosError. rewrite Hr.
  rewrite extractAxiosError_chosen.
  assert (Ht : truthy (prop (data r) "error") = true).
  { rewrite Hm. simpl. by rewrite (eqb_empty_false _ Hne). }
  by rewrite (prop_truthy _ _ Ht), Hno, Ht, Hm.
Qed.

Lemma extractAxiosError_no_response (err : AxiosError) :
  response err = None →
  extractAxiosError err
  = Some (if request err then "No response from server"
          else if String.eqb (message err) "" then "Unknown error"
               else message err).
Proof. unfold extractAxiosError. intros ->. by destruct (request err). Qed.

(** What [extractAxiosError] returns is never empty. *)
Lemma extractAxiosError_nonempty (err : AxiosError) (m : string) :
  extractAxiosError err = Some m → m ≠ "".
Proof.
  unfold extractAxiosError. destruct (response err) as [r|].
  - destruct (toString _); [|done]. intros [= <-].
    by apply append_nonempty_r.
  - destruct (request err); intros [= <-]; [done|].
    by apply or_string_nonempty.
Qed.

(** The TypeError of a status response that cannot be read renders as its
    message. *)
Lemma extractAxiosError_TypeError (data : jsval) :
  ∃ m, extractAxiosError (TypeError_status data) = Some m ∧ m ≠ "".
Proof.
  unfold extractAxiosError; simpl.
  eexists; split; [done|]. by apply or_string_nonempty.
Qed.

(** C8, as the code has it: a response renders as "{status}: {message}", the
    message being the body's [message] if that is truthy, else its [error] if
    that is truthy, else the body serialized, and the fixed "Request failed"
    for an empty body - whenever the message picked has a conversion to a
    string; a [message] or [error] that is a string is used as it is.
    Without a response the text is the fixed "No response from server" when
    a request went out, and otherwise the error's own message, "Unknown
    error" standing in for an empty one. *)
Theorem extractAxiosError_rendering (err : AxiosError) :
  match response err with
  | Some r =>
      let picked :=
        if truthy (data r) then
          if truthy (prop (data r) "message") then prop (data r) "message"
          else if truthy (prop (data r) "error") then prop (data r) "error"
               else JSON_stringify (data r)
        else JStr "Request failed" in
      (∀ m, toString picked = Some m →
            extractAxiosError err = Some (pretty (status r) ++ ": " ++ m))
      ∧ (∀ m, prop (data r) "message" = JStr m → m ≠ "" →
              extractAxiosError err = Some (pretty (status r) ++ ": " ++ m))
      ∧ (∀ m rest, data r = JObj (("message", JStr m) :: rest) → m ≠ "" →
              extractAxiosError err = Some (pretty (status r) ++ ": " ++ m))
      ∧ (∀ m, data r = JObj [("error", JStr m)] → m ≠ "" →
              extractAxiosError err = Some (pretty (status r) ++ ": " ++ m))
      ∧ (∀ m, truthy (prop (data r) "message") = false →
              prop (data r) "error" = JStr m → m ≠ "" →
              extractAxiosError err = Some (pretty (status r) ++ ": " ++ m))
      ∧ (truthy (data r) = true →
         truthy (prop (data r) "message") = false →
         truthy (prop (data r) "error") = false →
         ∃ m, stringify (data r) = Some m
              ∧ extractAxiosError err = Some (pretty (status r) ++ ": " ++ m))
      ∧ (truthy (data r) = false →
         extractAxiosError err = Some (pretty (status r) ++ ": Request failed"))
  | None =>
      extractAxiosError err
      = Some (if request err then "No response from server"
              else if String.eqb (message err) "" then "Unknown error"
                   else message err)
  end.
Proof.
  destruct (response err) as [r|] eqn:Hr;
    [|by apply extractAxiosError_no_response].
  intros picked.
  assert (Hex : extractAxiosError err
                = (λ m, pretty (status r) ++ ": " ++ m) <$> toString picked).
  { unfold extractAxiosError. rewrite Hr, extractAxiosError_chosen.
    fold picked. by destruct (toString picked). }
  split; [by intros m Hm; rewrite Hex, Hm|].
  split; [by intros m; apply extractAxiosError_message|].
  split; [by intros m rest; apply extractAxiosError_message_field|].
  split; [intros m Hd; apply extractAxiosError_error; by rewrite ?Hd|].
  split; [by intros m; apply extractAxiosError_error|].
  split.
  - intros Hd Hm He. destruct (stringify_truthy _ Hd) as (m & Hs & _).
    exists m. split; [done|]. rewrite Hex. unfold picked.
    rewrite Hd, Hm, He. unfold JSON_stringify. by rewrite Hs.
  - intros Hd. rewrite Hex. unfold picked. by rewrite Hd.
Qed.

Lemma extractAxiosError_rendering_witness :
  extractAxiosError unauthorized = Some "401: invalid token"
  ∧ extractAxiosError empty_body_error = Some "502: Request failed"
  ∧ extractAxiosError conflict_error
    = Some ("409: {" ++ quote "code" ++ ":21,"
            ++ quote "error" ++ ":" ++ quote "" ++ "}").
Proof.
  pose proof (extractAxiosError_rendering unauthorized) as H1.
  pose proof (extractAxiosError_rendering empty_body_error) as H2.
  pose proof (extractAxiosError_rendering conflict_error) as H3.
  simpl in H1, H2, H3.
  destruct H1 as (_ & _ & H1 & _). destruct H2 as (_ & _ & _ & _ & _ & _ & H2).
  destruct H3 as (_ & _ & _ & _ & _ & H3 & _).
  split; [by apply (H1 "invalid token" [])|]. split; [by apply H2|].
  destruct (H3 eq_refl eq_refl eq_refl) as (m & Hm & ->).
  vm_compute in Hm. apply (inj Some) in Hm. subst m. vm_compute. reflexivity.
Defined.

(** C8, counterexample: an error that never got a request out renders as its
    own message, so no single text covers that case; and a response with an
    empty body renders with neither a field nor a serialization of it. *)
Lemma extractAxiosError_unsent_not_fixed :
  ¬ fixed_rendering unsent
  ∧ extractAxiosError unsent_error = Some "Network Error"
  ∧ extractAxiosError empty_body_error = Some "502: Request failed".
Proof.
  split; [|done]. intros [text Hfixed].
  pose proof (Hfixed unsent_error (conj eq_refl eq_refl)) as H1.
  pose proof (Hfixed {| response := None; request := false; message := "" |}
                (conj eq_refl eq_refl)) as H2.
  rewrite <- H2 in H1. discriminate H1.
Qed.

(** ** The timer registry *)

Lemma timers_ok_init : timers_ok init.
Proof.
  split; [done|]. split; simpl; intros ? ?; by rewrite lookup_empty.
Qed.

(** Handlers that leave the registry and the window alone keep [timers_ok]. *)
Lemma timers_ok_same (s s' : App) :
  pollTimers s' = pollTimers s → window s' = window s →
  timers_ok s → timers_ok s'.
Proof. unfold timers_ok. by intros -> ->. Qed.

Lemma clearIfSet_registered (s : App) (i : string) (h : N) :
  timers_ok s → pollTimers s !! i = Some h →
  clearIfSet (pollTimers s !! i) (window s) = clearInterval h (window s).
Proof.
  intros (_ & _ & Hreg) Hi. rewrite Hi. simpl.
  destruct (N.eqb_spec h 0) as [->|]; [|done].
  apply Hreg in Hi. lia.
Qed.

(** The intervals of item [i] after [if (t) clearInterval(t)] on its entry. *)
Lemma clearIfSet_item (s : App) (i : string) (t : N) (p : Poll) :
  timers_ok s →
  active (clearIfSet (pollTimers s !! i) (window s)) !! t = Some p →
  active (window s) !! t = Some p ∧ poll_item p ≠ i.
Proof.
  intros Hok Ht. destruct (pollTimers s !! i) as [h|] eqn:Hi.
  - rewrite <- Hi, (clearIfSet_registered s i h Hok Hi) in Ht. simpl in Ht.
    apply lookup_delete_Some in Ht as [Hne Ht]. split; [done|].
    intros <-. destruct Hok as (_ & Hact & _).
    apply Hact in Ht. congruence.
  - simpl in Ht. split; [done|]. intros <-.
    destruct Hok as (_ & Hact & _). apply Hact in Ht. congruence.
Qed.

Lemma clearIfSet_next (o : option N) (w : Window) :
  next (clearIfSet o w) = next w.
Proof. destruct o as [h|]; simpl; [|done]. by destruct (h =? 0)%N. Qed.

Lemma stopTimer_ok (s : App) (i : string) : timers_ok s → timers_ok (stopTimer i s).
Proof.
  intros Hok. pose proof Hok as (Hpos & Hact & Hreg).
  unfold timers_ok, stopTimer; simpl. rewrite clearIfSet_next.
  split; [done|]. split.
  - intros t p Ht. apply (clearIfSet_item s i t p Hok) in Ht as [Ht Hne].
    rewrite lookup_delete_ne by done. by apply Hact.
  - intros j t Hj. apply lookup_delete_Some in Hj as [_ Hj]. by apply Hreg in Hj.
Qed.

Lemma pollVideoStatus_ok (s : App) (i v : string) :
  timers_ok s → timers_ok (pollVideoStatus i v s).
Proof.
  intros Hok. pose proof Hok as (Hpos & Hact & Hreg).
  unfold timers_ok, pollVideoStatus, setInterval; simpl.
  rewrite clearIfSet_next. split; [lia|]. split.
  - intros t p Ht. apply lookup_insert_Some in Ht as [[<- <-]|[Hne Ht]].
    + simpl. by rewrite lookup_insert_eq.
    + apply (clearIfSet_item s i t p Hok) in Ht as [Ht Hp].
      rewrite lookup_insert_ne by done. by apply Hact.
  - intros j t Hj. apply lookup_insert_Some in Hj as [[<- <-]|[Hne Hj]]; [lia|].
    apply Hreg in Hj. lia.
Qed.

(** What [forEach(clearInterval)] over the registry leaves of a window. *)
Lemma clear_each (m : gmap string N) (w : Window) :
  let w' := map_fold (λ _ t w, clearInterval t w) w m in
  next w' = next w
  ∧ ∀ t p, active w' !! t = Some p →
           active w !! t = Some p ∧ ∀ i, m !! i ≠ Some t.
Proof.
  apply (map_fold_weak_ind
           (λ (w' : Window) (m : gmap string N),
              next w' = next w
              ∧ ∀ t p, active w' !! t = Some p →
                       active w !! t = Some p ∧ ∀ i, m !! i ≠ Some t)).
  - split; [done|]. intros t p Ht. split; [done|]. intros i.
    by rewrite lookup_empty.
  - intros i h m' w' Hfresh [Hnext IH]. split; [done|]. simpl.
    intros t p Ht. apply lookup_delete_Some in Ht as [Hne Ht].
    destruct (IH t p Ht) as [Hw Hm]. split; [done|]. intros j.
    destruct (decide (i = j)) as [<-|Hij].
    + rewrite lookup_insert_eq. congruence.
    + rewrite lookup_insert_ne by done. apply Hm.
Qed.

Lemma clearAll_window (s : App) :
  timers_ok s →
  active (window (clearAll s)) = ∅ ∧ next (window (clearAll s)) = next (window s).
Proof.
  intros (_ & Hact & _). unfold clearAll; simpl.
  destruct (clear_each (pollTimers s) (window s)) as [Hnext Hsub].
  split; [|done]. apply map_empty. intros t.
  destruct (active _ !! t) as [p|] eqn:Ht; [|done].
  destruct (Hsub t p Ht) as [Hw Hno]. apply Hact in Hw. by destruct (Hno (poll_item p)).
Qed.

Lemma clearAll_ok (s : App) : timers_ok s → timers_ok (clearAll s).
Proof.
  intros Hok. destruct (clearAll_window s Hok) as [Hempty Hnext].
  unfold timers_ok. rewrite Hempty, Hnext. destruct Hok as (Hpos & _).
  split; [done|]. split; intros ? ?; [by rewrite lookup_empty|].
  unfold clearAll; simpl. by rewrite lookup_empty.
Qed.

(** ** Handlers and the registry *)

Lemma run_catch_timers (i : string) (err : AxiosError) (s : App) :
  pollTimers (run_catch i err s) = pollTimers s
  ∧ window (run_catch i err s) = window s.
Proof. unfold run_catch. by destruct (extractAxiosError err). Qed.

(** The three outcomes of a status response, told apart by the normalized
    status. *)
Lemma run_then_cases (i : string) (data : jsval) (s : App) (n : string) :
  normalize data = Some n →
  let s1 := setItems (updateItem i (with_statusText n)) s in
  run_then i data s =
    if includes doneStatuses (toLowerCase n)
    then stopTimer i (setItems (updateItem i (with_stage done)) s1)
    else if includes errorStatuses (toLowerCase n)
         then stopTimer i
                (setItems (updateItem i
                   (λ prev, with_errorMessage ("Encoding " ++ n)
                              (with_stage error prev))) s1)
         else s1.
Proof. unfold run_then. by intros ->. Qed.

Lemma run_then_ok (i : string) (data : jsval) (s : App) :
  timers_ok s → timers_ok (run_then i data s).
Proof.
  intros Hok. unfold run_then. destruct (normalize data) as [n|].
  2: { destruct (run_catch_timers i (TypeError_status data) s).
       by apply (timers_ok_same s). }
  repeat case_match; try (by apply stopTimer_ok, (timers_ok_same s)).
  by apply (timers_ok_same s).
Qed.

Lemma foldl_item_start (l : list UploadItem) (s : App) :
  let s' := foldl (λ acc it, item_start it acc) s l in
  token s' = token s ∧ files s' = files s ∧ isUploading s' = isUploading s
  ∧ pollTimers s' = pollTimers s ∧ window s' = window s
  ∧ uploads s' = uploads s ∧ awaited s' = awaited s
  ∧ requests s' = requests s
  ∧ items s' = foldl (λ acc it,
                 updateItem (id it)
                   (λ prev, with_statusText "Creating video…"
                              (with_stage creating prev)) acc) (items s) l.
Proof.
  revert s. induction l as [|it l IH]; intros s; simpl; [done|].
  destruct (IH (item_start it s)) as (?&?&?&?&?&?&?&?&?). by repeat split.
Qed.

Lemma startUploads_timers (s : App) :
  pollTimers (startUploads s) = pollTimers s
  ∧ window (startUploads s) = window s.
Proof.
  unfold startUploads. destruct (canUpload s); [|done]. simpl.
  by destruct (foldl_item_start (items s) (setIsUploading true s))
    as (_&_&_&?&?&_).
Qed.

Lemma step_timers_ok (s s' : App) (e : event) :
  timers_ok s → step s e = Some s' → timers_ok s'.
Proof.
  intros Hok Hstep.
  destruct e as [chosen clock|tok| |k v u|k evt|k|k err| | |t|k data|k err| ];
    simpl in Hstep.
  - injection Hstep as <-. by apply (timers_ok_same s).
  - injection Hstep as <-. by apply (timers_ok_same s).
  - injection Hstep as <-.
    destruct (startUploads_timers s). by apply (timers_ok_same s).
  - destruct (uploads s !! k) as [[it []]|]; try done.
    injection Hstep as <-. by apply (timers_ok_same s).
  - destruct (uploads s !! k) as [[it []]|]; try done.
    injection Hstep as <-. unfold onUploadProgress.
    repeat case_match; by apply (timers_ok_same s).
  - destruct (uploads s !! k) as [[it [|videoId0 url| |]]|]; try done.
    injection Hstep as <-.
    apply (timers_ok_same (pollVideoStatus (id it) videoId0 s)); [done..|].
    by apply pollVideoStatus_ok.
  - destruct (uploads s !! k) as [[it []]|]; try done;
      unfold item_catch in Hstep; destruct (extractAxiosError err);
      injection Hstep as <-; by apply (timers_ok_same s).
  - destruct (isUploading s && forallb settled (current s)); [|done].
    injection Hstep as <-. by apply (timers_ok_same s).
  - destruct (isUploading s && existsb rejected (current s)); [|done].
    injection Hstep as <-. by apply (timers_ok_same s).
  - destruct (active (window s) !! t); [|done].
    injection Hstep as <-. by apply (timers_ok_same s).
  - destruct (requests s !! k) as [p|]; [|done]. injection Hstep as <-.
    by apply run_then_ok, (timers_ok_same s).
  - destruct (requests s !! k) as [p|]; [|done]. injection Hstep as <-.
    destruct (run_catch_timers (poll_item p) err
                (setRequests (delete k (requests s)) s)).
    by apply (timers_ok_same s).
  - injection Hstep as <-. by apply clearAll_ok.
Qed.

Lemma reachable_timers_ok (s : App) : reachable s → timers_ok s.
Proof.
  induction 1 as [|s e s' _ IH Hstep]; [apply timers_ok_init|].
  by apply (step_timers_ok s s' e).
Qed.

Lemma reachable_run (s s' : App) (es : list event) :
  reachable s → run s es = Some s' → reachable s'.
Proof.
  revert s. induction es as [|e es IH]; intros s Hs; simpl.
  - by intros [= <-].
  - destruct (step s e) as [s1|] eqn:He; [|done].
    apply IH. by apply (reach_step s e).
Qed.

Lemma after_first_run_reachable : reachable after_first_run.
Proof.
  apply (reachable_run init _ first_run reach_init). vm_compute. reflexivity.
Qed.

(** C5: in every reachable state no item has two active intervals;
    [pollVideoStatus] cancels the interval registered for the item before it
    registers the new one, which is then the item's only one; and
    [clearAll] leaves no active interval, an empty registry and no items. *)
Theorem one_timer_per_item (s : App) :
  reachable s →
  (∀ t1 t2 p1 p2,
     active (window s) !! t1 = Some p1 → active (window s) !! t2 = Some p2 →
     poll_item p1 = poll_item p2 → t1 = t2)
  ∧ (∀ itemId videoId,
       let s' := pollVideoStatus itemId videoId s in
       (∀ t, pollTimers s !! itemId = Some t → active (window s') !! t = None)
       ∧ pollTimers s' !! itemId = Some (next (window s))
       ∧ active (window s') !! next (window s)
         = Some {| poll_item := itemId; poll_video := videoId |}
       ∧ (∀ t p, active (window s') !! t = Some p → poll_item p = itemId →
                 t = next (window s)))
  ∧ (active (window (clearAll s)) = ∅
     ∧ pollTimers (clearAll s) = ∅
     ∧ items (clearAll s) = []
     ∧ files (clearAll s) = []).
Proof.
  intros Hreach. pose proof (reachable_timers_ok s Hreach) as Hok.
  pose proof Hok as (Hpos & Hact & Hreg). split; [|split].
  - intros t1 t2 p1 p2 H1 H2 Hp. apply Hact in H1, H2.
    rewrite Hp in H1. congruence.
  - intros itemId videoId s'.
    pose proof (pollVideoStatus_ok s itemId videoId Hok) as (_ & Hact' & _).
    assert (Hnew : pollTimers s' !! itemId = Some (next (window s))).
    { unfold s', pollVideoStatus, setInterval; simpl.
      by rewrite clearIfSet_next, lookup_insert_eq. }
    split; [|split; [done|split]].
    + intros t Ht. destruct (active (window s') !! t) as [p|] eqn:Hp; [|done].
      unfold s', pollVideoStatus, setInterval in Hp; simpl in Hp.
      rewrite clearIfSet_next in Hp.
      apply lookup_insert_Some in Hp as [[<- _]|[Hne Hp]].
      { apply Hreg in Ht. lia. }
      rewrite (clearIfSet_registered s itemId t Hok Ht) in Hp. simpl in Hp.
      by rewrite lookup_delete_eq in Hp.
    + unfold s', pollVideoStatus, setInterval; simpl.
      by rewrite clearIfSet_next, lookup_insert_eq.
    + intros t p Ht <-. apply Hact' in Ht. fold s' in Ht. congruence.
  - destruct (clearAll_window s Hok) as [Hempty _]. by repeat split.
Qed.

Lemma one_timer_per_item_witness :
  reachable after_first_run
  ∧ size (active (window after_first_run)) = 1%nat
  ∧ size (active (window (pollVideoStatus "1-0-a.mp4" "v1" after_first_run)))
    = 1%nat
  ∧ active (window (clearAll after_first_run)) = ∅.
Proof.
  split; [apply after_first_run_reachable|].
  destruct (one_timer_per_item after_first_run after_first_run_reachable)
    as (_ & _ & Hclear & _).
  split; [vm_compute; reflexivity|]. split; [vm_compute; reflexivity|].
  exact Hclear.
Defined.

(** ** A status response *)

Lemma normalize_cases (data : jsval) :
  let picked := if truthy (prop data "status") then prop data "status"
                else if truthy (prop data "encodingStatus")
                     then prop data "encodingStatus" else JStr "" in
  normalize data
  = if nullish data then None
    else (λ raw, if String.eqb raw "" then "processing" else raw)
           <$> toString picked.
Proof.
  unfold normalize. destruct (nullish data); [done|].
  destruct (truthy (prop data "status")) eqn:Hs.
  { rewrite (or_truthy _ _ Hs), (or_truthy _ _ Hs). by destruct (toString _). }
  rewrite (or_falsy _ _ Hs).
  destruct (truthy (prop data "encodingStatus")) eqn:He.
  { rewrite (or_truthy _ _ He). by destruct (toString _). }
  by rewrite (or_falsy _ _ He).
Qed.

Lemma normalize_nonempty (data : jsval) (n : string) :
  normalize data = Some n → n ≠ "".
Proof.
  unfold normalize. destruct (nullish data); [done|].
  destruct (toString _) as [raw|]; [|done]. intros [= <-].
  by apply or_string_nonempty.
Qed.

(** *** Letter case *)

Lemma lower_char_spec (c d : ascii) :
  (97 ≤ nat_of_ascii d ≤ 122)%nat →
  lower_char c = d ↔ same_letter c d.
Proof.
  intros Hd. unfold lower_char, same_letter.
  destruct ((65 <=? nat_of_ascii c)%nat && (nat_of_ascii c <=? 90)%nat) eqn:Hc.
  - apply andb_true_iff in Hc as [H1%Nat.leb_le H2%Nat.leb_le]. split.
    + intros <-. right. rewrite nat_ascii_embedding; lia.
    + intros [->|H]; [lia|]. rewrite H. apply ascii_nat_embedding.
  - split; [by left|]. intros [->|H]; [done|].
    apply andb_false_iff in Hc as [H1%Nat.leb_gt|H2%Nat.leb_gt]; lia.
Qed.

Lemma toLowerCase_spells (s w : string) :
  small w = true → toLowerCase s = w ↔ spells s w.
Proof.
  revert w.
  induction s as [|c s IH]; intros [|d w]; cbn [small toLowerCase spells].
  - done.
  - intros _. split; [discriminate|done].
  - intros _. split; [discriminate|done].
  - intros Hw. apply andb_true_iff in Hw as [Hd Hw].
    apply andb_true_iff in Hd as [H1%Nat.leb_le H2%Nat.leb_le].
    rewrite <- (IH w Hw), <- (lower_char_spec c d) by lia.
    split; [by intros [= -> ->]|by intros [-> ->]].
Qed.

Lemma includes_one_of (words : list string) (s : string) :
  forallb small words = true →
  includes words (toLowerCase s) = true ↔ one_of words s.
Proof.
  intros Hsmall. unfold includes, one_of. rewrite existsb_exists.
  rewrite forallb_forall in Hsmall.
  split; intros (w & Hin & Hw); exists w.
  - apply String.eqb_eq in Hw. split; [by apply list_elem_of_In|].
    by apply toLowerCase_spells; [apply Hsmall|].
  - apply list_elem_of_In in Hin. split; [done|]. apply String.eqb_eq.
    by apply toLowerCase_spells; [apply Hsmall|].
Qed.

Lemma includes_done (s : string) :
  includes doneStatuses (toLowerCase s) = true ↔ one_of done_words s.
Proof. by apply includes_one_of. Qed.

Lemma includes_error (s : string) :
  includes errorStatuses (toLowerCase s) = true ↔ one_of error_words s.
Proof. by apply includes_one_of. Qed.

Lemma done_not_error (l : string) :
  includes doneStatuses l = true → includes errorStatuses l = false.
Proof.
  unfold includes. rewrite existsb_exists. intros (w & Hin & Hw).
  apply String.eqb_eq in Hw. subst l.
  repeat (destruct Hin as [<-|Hin]; [done|]). destruct Hin.
Qed.

(** *** The registry *)

Lemma stopTimer_absent (i : string) (s : App) :
  pollTimers (stopTimer i s) !! i = None.
Proof. unfold stopTimer; simpl. apply lookup_delete_eq. Qed.

Lemma stopTimer_noop (i : string) (s : App) :
  pollTimers s !! i = None →
  pollTimers (stopTimer i s) = pollTimers s ∧ window (stopTimer i s) = window s.
Proof.
  intros Hi. unfold stopTimer; simpl. rewrite Hi. simpl.
  by rewrite (delete_id _ _ Hi).
Qed.

(** The items of [run_then], position by position. *)
Lemma run_then_items (i : string) (data : jsval) (s : App) (j : nat)
    (it : UploadItem) (n : string) :
  normalize data = Some n → items s !! j = Some it →
  items (run_then i data s) !! j =
    Some (if decide (id it = i) then
            if includes doneStatuses (toLowerCase n)
            then with_stage done (with_statusText n it)
            else if includes errorStatuses (toLowerCase n)
                 then with_errorMessage ("Encoding " ++ n)
                        (with_stage error (with_statusText n it))
                 else with_statusText n it
          else it).
Proof.
  intros Hd Hj. rewrite (run_then_cases i data s n Hd).
  destruct (includes doneStatuses (toLowerCase n));
    [|destruct (includes errorStatuses (toLowerCase n))]; simpl;
    rewrite !updateItem_lookup, Hj; simpl; repeat case_decide; done.
Qed.

(** The items of [run_catch]. *)
Lemma run_catch_items (i : string) (err : AxiosError) (s : App) (j : nat)
    (it : UploadItem) :
  items s !! j = Some it →
  items (run_catch i err s) !! j =
    Some (match extractAxiosError err with
          | Some m => if decide (id it = i)
                      then with_statusText ("Poll error: " ++ m) it else it
          | None => it
          end).
Proof.
  intros Hj. unfold run_catch. destruct (extractAxiosError err); [|done].
  simpl. rewrite updateItem_lookup, Hj. simpl. by case_decide.
Qed.

(** The registry and the window after [run_then]. *)
Lemma run_then_timers (i : string) (data : jsval) (s : App) (n : string) :
  normalize data = Some n →
  (pollTimers (run_then i data s), window (run_then i data s)) =
    if includes doneStatuses (toLowerCase n)
       || includes errorStatuses (toLowerCase n)
    then (pollTimers (stopTimer i s), window (stopTimer i s))
    else (pollTimers s, window s).
Proof.
  intros Hd. rewrite (run_then_cases i data s n Hd).
  destruct (includes doneStatuses (toLowerCase n));
    [|destruct (includes errorStatuses (toLowerCase n))]; done.
Qed.

Lemma run_then_unread (i : string) (data : jsval) (s : App) :
  normalize data = None →
  run_then i data s = run_catch i (TypeError_status data) s.
Proof. unfold run_then. by intros ->. Qed.

Lemma run_then_absent (i : string) (data : jsval) (s : App) :
  pollTimers s !! i = None →
  pollTimers (run_then i data s) = pollTimers s
  ∧ window (run_then i data s) = window s.
Proof.
  intros Hi. destruct (normalize data) as [n|] eqn:Hd.
  2: { rewrite (run_then_unread i data s Hd). apply run_catch_timers. }
  pose proof (run_then_timers i data s n Hd) as H.
  destruct (stopTimer_noop i s Hi) as [Hm Hw]. rewrite Hm, Hw in H.
  destruct (_ || _); by injection H.
Qed.

Lemma includes_done_false (s : string) :
  includes doneStatuses (toLowerCase s) = false ↔ ¬ one_of done_words s.
Proof. rewrite <- includes_done. by destruct (includes _ _). Qed.

Lemma includes_error_false (s : string) :
  includes errorStatuses (toLowerCase s) = false ↔ ¬ one_of error_words s.
Proof. rewrite <- includes_error. by destruct (includes _ _). Qed.

Local Ltac fields :=
  repeat split; try done; intros; try contradiction; by repeat split.

(** C1, as the code has it.  A response whose body is not [null] or
    [undefined] and whose status - the truthy [status], else the truthy
    [encodingStatus], else the empty string - converts to a string: an empty
    result becomes "processing", the item gets the result as [statusText];
    when it spells one of the done words in any letter case the stage
    becomes [done], when it spells one of the error words the stage becomes
    [error] with "Encoding {status}" as message, and in both cases the item's
    entry leaves the registry and its interval is cancelled; any other
    status leaves the stage, the registry and the intervals as they were.
    A response from which no status can be read is shown as a poll error
    and changes nothing else.  Items with another id are untouched. *)
Theorem poll_response_effect (s : App) (itemId : string) (data : jsval) :
  reachable s →
  let picked := if truthy (prop data "status") then prop data "status"
                else if truthy (prop data "encodingStatus")
                     then prop data "encodingStatus" else JStr "" in
  let s' := run_then itemId data s in
  (∀ raw, nullish data = false → toString picked = Some raw →
     let n := if String.eqb raw "" then "processing" else raw in
     (∀ j it, items s !! j = Some it →
        ∃ it', items s' !! j = Some it'
          ∧ if decide (id it = itemId) then
              same_upload it it' ∧ statusText it' = n
              ∧ (one_of done_words n →
                   stage it' = done ∧ errorMessage it' = errorMessage it)
              ∧ (one_of error_words n →
                   stage it' = error
                   ∧ errorMessage it' = Some ("Encoding " ++ n))
              ∧ (¬ one_of done_words n → ¬ one_of error_words n →
                   stage it' = stage it ∧ errorMessage it' = errorMessage it)
            else it' = it)
     ∧ (one_of done_words n ∨ one_of error_words n →
          pollTimers s' = delete itemId (pollTimers s)
          ∧ next (window s') = next (window s)
          ∧ (∀ t, pollTimers s !! itemId = Some t →
                  active (window s') = delete t (active (window s)))
          ∧ (pollTimers s !! itemId = None →
               active (window s') = active (window s)))
     ∧ (¬ one_of done_words n → ¬ one_of error_words n →
          pollTimers s' = pollTimers s ∧ window s' = window s))
  ∧ (nullish data = true ∨ toString picked = None →
     ∃ m, m ≠ ""
       ∧ (∀ j it, items s !! j = Some it →
            ∃ it', items s' !! j = Some it'
              ∧ if decide (id it = itemId) then
                  same_upload it it' ∧ statusText it' = "Poll error: " ++ m
                  ∧ stage it' = stage it
                  ∧ errorMessage it' = errorMessage it
                else it' = it)
       ∧ pollTimers s' = pollTimers s ∧ window s' = window s)
  ∧ (∀ j it, items s !! j = Some it → id it = itemId →
       (∀ st rest, data = JObj (("status", JStr st) :: rest) → st ≠ "" →
          (statusText <$> items s' !! j) = Some st)
       ∧ (∀ st, data = JObj [("encodingStatus", JStr st)] → st ≠ "" →
            (statusText <$> items s' !! j) = Some st)
       ∧ (data = JObj [] ∨ data = JStr "" →
            (statusText <$> items s' !! j) = Some "processing")).
Proof.
  intros Hreach picked s'. pose proof (reachable_timers_ok s Hreach) as Hok.
  pose proof (normalize_cases data) as Hcases. cbv zeta in Hcases.
  fold picked in Hcases. split; [|split].
  - intros raw Hnull Hraw n.
    assert (Hn : normalize data = Some n) by (by rewrite Hcases, Hnull, Hraw).
    split; [|split].
    + intros j it Hj. eexists. split.
      { unfold s'. by rewrite (run_then_items itemId data s j it n Hn Hj). }
      case_decide; [|done].
      destruct (includes doneStatuses (toLowerCase n)) eqn:Hdone.
      { pose proof (done_not_error _ Hdone) as Herr.
        apply includes_error_false in Herr. apply includes_done in Hdone.
        fields. }
      apply includes_done_false in Hdone.
      destruct (includes errorStatuses (toLowerCase n)) eqn:Herr.
      { apply includes_error in Herr. fields. }
      apply includes_error_false in Herr. fields.
    + intros Hterm.
      assert (Hb : includes doneStatuses (toLowerCase n)
                   || includes errorStatuses (toLowerCase n) = true).
      { apply orb_true_iff.
        destruct Hterm as [H|H];
          [left; by apply includes_done|right; by apply includes_error]. }
      pose proof (run_then_timers itemId data s n Hn) as Ht.
      rewrite Hb in Ht. fold s' in Ht. injection Ht as -> ->.
      unfold stopTimer; simpl. rewrite clearIfSet_next.
      split; [done|]. split; [done|]. split.
      * intros t Hi. by rewrite (clearIfSet_registered s itemId t Hok Hi).
      * by intros ->.
    + intros Hdone%includes_done_false Herr%includes_error_false.
      pose proof (run_then_timers itemId data s n Hn) as Ht.
      rewrite Hdone, Herr in Ht. fold s' in Ht. by injection Ht.
  - intros Hunread.
    assert (Hn : normalize data = None).
    { rewrite Hcases. destruct Hunread as [->| ->]; [done|].
      by destruct (nullish data). }
    destruct (extractAxiosError_TypeError data) as (m & Hm & Hne).
    exists m. split; [done|]. unfold s'.
    rewrite (run_then_unread itemId data s Hn). split.
    + intros j it Hj. eexists. split; [by apply run_catch_items|].
      rewrite Hm. by case_decide.
    + apply run_catch_timers.
  - intros j it Hj Hid.
    assert (Htext : ∀ n, normalize data = Some n →
                         (statusText <$> items s' !! j) = Some n).
    { intros n Hn. unfold s'.
      rewrite (run_then_items itemId data s j it n Hn Hj), decide_True by done.
      simpl. by repeat case_match. }
    split; [|split].
    + intros st rest -> Hst. apply Htext.
      unfold normalize, JS.or, or_string; simpl.
      by repeat (rewrite (eqb_empty_false _ Hst); simpl).
    + intros st -> Hst. apply Htext.
      unfold normalize, JS.or, or_string; simpl.
      by repeat (rewrite (eqb_empty_false _ Hst); simpl).
    + intros [-> | ->]; by apply Htext.
Qed.

Lemma poll_response_effect_witness :
  reachable after_first_run
  ∧ (statusText <$> items (run_then "1-0-a.mp4" ready_body after_first_run)
                      !! 0%nat) = Some "Ready"
  ∧ (stage <$> items (run_then "1-0-a.mp4" ready_body after_first_run)
                 !! 0%nat) = Some done
  ∧ pollTimers (run_then "1-0-a.mp4" ready_body after_first_run) = ∅
  ∧ ∃ m, (statusText <$> items (run_then "1-0-a.mp4" JNull after_first_run)
                           !! 0%nat) = Some ("Poll error: " ++ m).
Proof.
  split; [apply after_first_run_reachable|].
  destruct (poll_response_effect after_first_run "1-0-a.mp4" ready_body
              after_first_run_reachable) as (Hread & _ & _).
  destruct (Hread "Ready" eq_refl eq_refl) as (Hitems & Hterm & _).
  destruct (Hitems 0%nat _ eq_refl) as (it' & Hit' & Hfields).
  rewrite decide_True in Hfields by done.
  destruct Hfields as (_ & Htext & Hdone & _).
  assert (Hspell : one_of done_words "Ready").
  { exists "ready". split; [apply list_elem_of_further, list_elem_of_here|].
    simpl. unfold same_letter.
    repeat split; auto. }
  destruct (Hdone Hspell) as [Hstage _].
  destruct (Hterm (or_introl Hspell)) as (Hreg & _).
  split; [by rewrite Hit'; simpl; rewrite Htext|].
  split; [by rewrite Hit'; simpl; rewrite Hstage|].
  split; [rewrite Hreg; vm_compute; reflexivity|].
  destruct (poll_response_effect after_first_run "1-0-a.mp4" JNull
              after_first_run_reachable) as (_ & Hunread & _).
  destruct (Hunread (or_introl eq_refl)) as (m & _ & Hitems' & _).
  destruct (Hitems' 0%nat _ eq_refl) as (it'' & Hit'' & Hfields').
  rewrite decide_True in Hfields' by done.
  destruct Hfields' as (_ & Htext' & _).
  exists m. by rewrite Hit''; simpl; rewrite Htext'.
Defined.

(** C1, counterexample: a response whose body is [null] has no status, and
    the item does not show "processing": reading the status throws, the
    [catch] of [run] writes a poll error, and the stage and the interval
    stay. *)
Lemma null_body_is_poll_error :
  ¬ missing_status_is_processing
  ∧ normalize JNull = None
  ∧ (∃ m, (statusText <$> items (run_then "1-0-a.mp4" JNull after_first_run)
                            !! 0%nat) = Some ("Poll error: " ++ m))
  ∧ (stage <$> items (run_then "1-0-a.mp4" JNull after_first_run) !! 0%nat)
    = Some polling
  ∧ pollTimers (run_then "1-0-a.mp4" JNull after_first_run)
    = pollTimers after_first_run.
Proof.
  split; [|split; [done|split; [|split]]].
  - intros Hclaim.
    destruct (Hclaim after_first_run "1-0-a.mp4" JNull 0%nat _
                after_first_run_reachable eq_refl eq_refl)
      as (it' & Hit' & Htext); [done|].
    vm_compute in Hit'. apply (inj Some) in Hit'. subst it'.
    discriminate Htext.
  - eexists. vm_compute. reflexivity.
  - vm_compute. reflexivity.
  - vm_compute. reflexivity.
Qed.

Lemma run_then_items_inv (i : string) (data : jsval) (s : App) (j : nat)
    (it' : UploadItem) (n : string) :
  normalize data = Some n → items (run_then i data s) !! j = Some it' →
  ∃ it, items s !! j = Some it.
Proof.
  intros Hd. rewrite (run_then_cases i data s n Hd). cbv zeta.
  destruct (includes doneStatuses _); [|destruct (includes errorStatuses _)];
    simpl; rewrite !updateItem_lookup; destruct (items s !! j); eauto; done.
Qed.

Lemma run_then_registry (i j : string) (data : jsval) (s : App) :
  pollTimers s !! j = None → pollTimers (run_then i data s) !! j = None.
Proof.
  intros Hj. destruct (normalize data) as [n|] eqn:Hd.
  2: { rewrite (run_then_unread i data s Hd).
       by destruct (run_catch_timers i (TypeError_status data) s) as [-> _]. }
  pose proof (run_then_timers i data s n Hd) as H.
  destruct (_ || _); injection H as -> _; [|done].
  unfold stopTimer; simpl. apply lookup_delete_None. by right.
Qed.

(** Only [pollVideoStatus], which only the end of an upload calls, adds to
    the registry. *)
Lemma step_registry_absent (s s' : App) (e : event) (i : string) :
  (∀ k, e ≠ Uploaded k) → step s e = Some s' →
  pollTimers s !! i = None → pollTimers s' !! i = None.
Proof.
  intros Hne Hstep Hi.
  destruct e as [chosen clock|tok| |k v u|k evt|k|k err| | |t|k data|k err| ];
    simpl in Hstep.
  - by injection Hstep as <-.
  - by injection Hstep as <-.
  - injection Hstep as <-. destruct (startUploads_timers s) as [-> _]. done.
  - destruct (uploads s !! k) as [[it []]|]; try done. by injection Hstep as <-.
  - destruct (uploads s !! k) as [[it []]|]; try done.
    injection Hstep as <-. unfold onUploadProgress. by repeat case_match.
  - by destruct (Hne k).
  - destruct (uploads s !! k) as [[it []]|]; try done;
      unfold item_catch in Hstep; destruct (extractAxiosError err);
      by injection Hstep as <-.
  - destruct (_ && _); [|done]. by injection Hstep as <-.
  - destruct (_ && _); [|done]. by injection Hstep as <-.
  - destruct (active (window s) !! t); [|done]. by injection Hstep as <-.
  - destruct (requests s !! k) as [p|]; [|done]. injection Hstep as <-.
    by apply run_then_registry.
  - destruct (requests s !! k) as [p|]; [|done]. injection Hstep as <-.
    by destruct (run_catch_timers (poll_item p) err
                   (setRequests (delete k (requests s)) s)) as [-> _].
  - injection Hstep as <-. unfold clearAll; simpl. apply lookup_empty.
Qed.

Lemma run_registry_absent (es : list event) (s s' : App) (i : string) :
  Forall (λ e, ∀ k, e ≠ Uploaded k) es → run s es = Some s' →
  pollTimers s !! i = None → pollTimers s' !! i = None.
Proof.
  intros Hes. revert s. induction Hes as [|e es He _ IH]; intros s; simpl.
  - by intros [= <-].
  - destruct (step s e) as [s1|] eqn:Hstep; [|done]. intros Hrun Hi.
    apply (IH s1 Hrun). by apply (step_registry_absent s s1 e).
Qed.

(** C10: a status response with a terminal status takes the item's entry out
    of the registry in the step that sets the stage to [done] or [error]; no
    interval of the item stays active, no later event other than the end of
    a new upload brings an entry back, and with no entry to cancel (never
    registered, cleared, or cancelled by an earlier response) the registry
    and the intervals are left as they are. *)
Theorem terminal_poll_unregisters (s : App) (itemId : string) (data : jsval)
    (n : string) :
  reachable s → normalize data = Some n →
  includes doneStatuses (toLowerCase n)
  || includes errorStatuses (toLowerCase n) = true →
  let s' := run_then itemId data s in
  (∀ it, it ∈ items s' → id it = itemId → stage it = done ∨ stage it = error)
  ∧ pollTimers s' !! itemId = None
  ∧ (∀ t p, active (window s') !! t = Some p → poll_item p ≠ itemId)
  ∧ (∀ es s'', Forall (λ e, ∀ k, e ≠ Uploaded k) es →
               run s' es = Some s'' → pollTimers s'' !! itemId = None)
  ∧ (pollTimers s !! itemId = None →
       pollTimers s' = pollTimers s ∧ window s' = window s)
  ∧ (∀ data', pollTimers (run_then itemId data' s') = pollTimers s'
              ∧ window (run_then itemId data' s') = window s').
Proof.
  intros Hreach Hd Hterm s'.
  pose proof (reachable_timers_ok s Hreach) as Hok.
  pose proof (run_then_ok itemId data s Hok) as Hok'. fold s' in Hok'.
  assert (Hgone : pollTimers s' !! itemId = None).
  { pose proof (run_then_timers itemId data s n Hd) as Ht.
    rewrite Hterm in Ht. injection Ht as Hm _. unfold s'. rewrite Hm.
    apply stopTimer_absent. }
  split; [|split; [done|split; [|split; [|split]]]].
  - intros it' Hin Hid. apply list_elem_of_lookup in Hin as [j Hj].
    destruct (run_then_items_inv itemId data s j it' n Hd Hj) as [it Hit].
    unfold s' in Hj. rewrite (run_then_items itemId data s j it n Hd Hit) in Hj.
    apply (inj Some) in Hj. subst it'. apply orb_true_iff in Hterm.
    case_decide as Hi.
    + destruct (includes doneStatuses _); [by left|].
      destruct Hterm as [|Herr]; [done|]. rewrite Herr. by right.
    + done.
  - intros t p Ht Hp. destruct Hok' as (_ & Hact & _).
    apply Hact in Ht. rewrite Hp in Ht. congruence.
  - intros es s'' Hes Hrun. by apply (run_registry_absent es s' s'').
  - apply run_then_absent.
  - intros data'. by apply run_then_absent.
Qed.

Lemma terminal_poll_unregisters_witness :
  reachable after_first_run ∧ normalize ready_body = Some "Ready"
  ∧ pollTimers after_first_run !! "1-0-a.mp4" = Some 1%N
  ∧ pollTimers (run_then "1-0-a.mp4" ready_body after_first_run)
      !! "1-0-a.mp4" = None.
Proof.
  split; [apply after_first_run_reachable|]. split; [reflexivity|].
  split; [vm_compute; reflexivity|].
  exact (proj1 (proj2 (terminal_poll_unregisters after_first_run "1-0-a.mp4"
                         ready_body "Ready" after_first_run_reachable
                         eq_refl eq_refl))).
Defined.

(** ** A failed status request *)

(** C2, the failing input: the status request is refused with a body whose
    [message] is an object that has a property called [toString].
    [extractAxiosError] throws on it inside the [catch] of [run], and no
    poll error is written: the item shows what it showed before.  The stage
    and the interval stay. *)
Theorem poll_failure_unrendered :
  extractAxiosError unrenderable = None
  ∧ (∀ itemId s, run_catch itemId unrenderable s = s)
  ∧ ∃ s', step after_first_run (PollError 0 unrenderable) = Some s'
          ∧ items s' = items after_first_run
          ∧ (statusText <$> items s' !! 0%nat)
            = Some "Uploaded. Starting to poll…"
          ∧ (stage <$> items s' !! 0%nat) = Some polling
          ∧ window s' = window after_first_run.
Proof.
  split; [done|]. split; [done|].
  eexists. split; [vm_compute; reflexivity|]. by repeat split.
Qed.

(** A failed status request whose failure has a rendering: the item of the
    request gets "Poll error: {rendering}" as [statusText] and keeps its
    stage and every other field; the other items, the registry, the
    intervals and the uploads are as they were, and every interval that was
    active can fire again, which sends the next request.  Nothing counts the
    failures. *)
Theorem poll_failure_effect (s : App) (k : nat) (p : Poll) (err : AxiosError)
    (m : string) :
  requests s !! k = Some p → extractAxiosError err = Some m →
  ∃ s', step s (PollError k err) = Some s'
    ∧ (∀ j it, items s !! j = Some it →
         ∃ it', items s' !! j = Some it'
           ∧ if decide (id it = poll_item p) then
               statusText it' = "Poll error: " ++ m
               ∧ stage it' = stage it ∧ errorMessage it' = errorMessage it
               ∧ same_upload it it'
             else it' = it)
    ∧ pollTimers s' = pollTimers s ∧ window s' = window s
    ∧ uploads s' = uploads s ∧ isUploading s' = isUploading s
    ∧ (∀ t q, active (window s) !! t = Some q →
         ∃ s'', step s' (Tick t) = Some s''
                ∧ requests s'' = (requests s' ++ [q])%list
                ∧ items s'' = items s' ∧ window s'' = window s'
                ∧ pollTimers s'' = pollTimers s').
Proof.
  intros Hk Hm. simpl. rewrite Hk. eexists. split; [done|].
  unfold run_catch. rewrite Hm. simpl. split; [|split; [done|]].
  - intros j it Hj. rewrite updateItem_lookup, Hj. simpl. eexists.
    split; [done|]. by case_decide.
  - repeat split; try done. intros t q Ht. simpl. rewrite Ht.
    eexists. by repeat split.
Qed.

Lemma poll_failure_effect_witness :
  ∃ s', step after_first_run (PollError 0 unauthorized) = Some s'
        ∧ (statusText <$> items s' !! 0%nat)
          = Some "Poll error: 401: invalid token"
        ∧ (stage <$> items s' !! 0%nat) = Some polling
        ∧ is_Some (step s' (Tick 1)).
Proof.
  destruct (poll_failure_effect after_first_run 0
              {| poll_item := "1-0-a.mp4"; poll_video := "v0" |}
              unauthorized "401: invalid token" eq_refl eq_refl)
    as (s' & Hstep & Hitems & _ & _ & _ & _ & Hretry).
  exists s'. split; [done|].
  destruct (Hitems 0%nat _ eq_refl) as (it' & Hit' & Hfields).
  rewrite decide_True in Hfields by done.
  destruct Hfields as (Htext & Hstage & _).
  split; [by rewrite Hit'; simpl; rewrite Htext|].
  split; [by rewrite Hit'; simpl; rewrite Hstage|].
  destruct (Hretry 1%N {| poll_item := "1-0-a.mp4"; poll_video := "v0" |})
    as (s'' & -> & _); [vm_compute; reflexivity|done].
Defined.
(** ** The pipeline of one item *)

Lemma setAwaiting_lookup (k k' : nat) (a : Await) (s : App) :
  uploads (setAwaiting k a s) !! k'
  = if decide (k = k')
    then (λ t, {| item := item t; awaiting := a |}) <$> uploads s !! k'
    else uploads s !! k'.
Proof.
  unfold setAwaiting; simpl. case_decide as Hk.
  - subst. by rewrite list_lookup_alter_eq.
  - by rewrite list_lookup_alter_ne.
Qed.

(** What the [catch] of an item's function does (lines 232-240) with a
    failure that has a rendering. *)
Lemma failed_step (s : App) (k : nat) (tk : Task) (err : AxiosError)
    (m : string) :
  uploads s !! k = Some tk → in_flight tk → extractAxiosError err = Some m →
  ∃ s', step s (Failed k err) = Some s'
    ∧ (∀ j it, items s !! j = Some it →
         items s' !! j
         = Some (if decide (id it = id (item tk))
                 then with_statusText "Error"
                        (with_errorMessage m (with_stage error it))
                 else it))
    ∧ length (items s') = length (items s)
    ∧ uploads s' !! k = Some {| item := item tk; awaiting := Settled |}
    ∧ (∀ k', k' ≠ k → uploads s' !! k' = uploads s !! k')
    ∧ pollTimers s' = pollTimers s ∧ window s' = window s
    ∧ isUploading s' = isUploading s ∧ requests s' = requests s
    ∧ awaited s' = awaited s.
Proof.
  intros Hk [Hne Hne'] Hm.
  exists (setAwaiting k Settled
            (setItems (updateItem (id (item tk))
                         (λ prev, with_statusText "Error"
                                    (with_errorMessage m
                                       (with_stage error prev)))) s)).
  split.
  { simpl. rewrite Hk. unfold item_catch.
    destruct tk as [it []]; simpl; by rewrite ?Hm. }
  split; [|split; [|split; [|split]]].
  - intros j it Hj. simpl. by rewrite updateItem_lookup, Hj.
  - simpl. apply updateItem_length.
  - rewrite setAwaiting_lookup, decide_True by done. simpl. by rewrite Hk.
  - intros k' Hk'. rewrite setAwaiting_lookup, decide_False by done. done.
  - done.
Qed.

(** The same [catch] with a failure that has none: it throws, the promise
    is rejected and nothing else changes. *)
Lemma rejected_step (s : App) (k : nat) (tk : Task) (err : AxiosError) :
  uploads s !! k = Some tk → in_flight tk → extractAxiosError err = None →
  step s (Failed k err) = Some (setAwaiting k Rejected s).
Proof.
  intros Hk [Hne Hne'] Hm. simpl. rewrite Hk. unfold item_catch.
  destruct tk as [it []]; simpl; by rewrite ?Hm.
Qed.

(** C3, the failing input: the create request of the second file is refused
    with a body whose [message] is an object that has a property called
    [toString].  [extractAxiosError] throws on it inside the [catch] of the
    item, which rejects the item's promise before anything is written: the
    item stays at [creating] without an [errorMessage], and so does every
    pending item that fails this way. *)
Theorem pipeline_failure_unrendered :
  extractAxiosError unrenderable = None
  ∧ (∀ s k tk, uploads s !! k = Some tk → in_flight tk →
       ∃ s', step s (Failed k unrenderable) = Some s'
             ∧ items s' = items s
             ∧ uploads s' !! k = Some {| item := item tk; awaiting := Rejected |})
  ∧ ∃ s', run init rejecting_run = Some s'
          ∧ (stage <$> items s' !! 1%nat) = Some creating
          ∧ (statusText <$> items s' !! 1%nat) = Some "Creating video…"
          ∧ (errorMessage <$> items s' !! 1%nat) = Some None
          ∧ (awaiting <$> uploads s' !! 1%nat) = Some Rejected.
Proof.
  split; [done|]. split.
  - intros s k tk Hk Hflight. eexists.
    split; [by apply (rejected_step s k tk)|]. split; [done|].
    rewrite setAwaiting_lookup, decide_True by done. by rewrite Hk.
  - eexists. split; [vm_compute; reflexivity|]. by repeat split.
Qed.

Lemma pipeline_failure_unrendered_witness :
  ∃ s', step (startUploads after_first_run) (Failed 2 unrenderable) = Some s'
        ∧ items s' = items (startUploads after_first_run).
Proof.
  destruct pipeline_failure_unrendered as (_ & Hstep & _).
  destruct (Hstep (startUploads after_first_run) 2%nat
              {| item := default sample_item (items after_first_run !! 0%nat);
                 awaiting := AwaitCreate |})
    as (s' & Hs' & Hitems & _);
    [vm_compute; reflexivity|by split|].
  by exists s'.
Defined.

(** When the create or the upload request of an item fails with a failure
    that has a rendering, the items with its id get stage [error], the
    rendering as [errorMessage], which is never empty, and "Error" as text;
    the rendering is the refusal's status and message, the fixed text for a
    request that got no response, the failure's own message otherwise.
    Their [videoId] and the rest are what they were (so only a create that
    had succeeded shows a [videoId]), every other item is as before, the
    promise is fulfilled, so that no create answer, progress or upload
    completion can move the item on, and sibling promises, the busy flag,
    the registry and the intervals are as before. *)
Theorem pipeline_failure (s : App) (k : nat) (tk : Task) (err : AxiosError)
    (m : string) :
  uploads s !! k = Some tk → in_flight tk → extractAxiosError err = Some m →
  ∃ s', step s (Failed k err) = Some s'
    ∧ m ≠ ""
    ∧ (∀ r text rest, response err = Some r →
         data r = JObj (("message", JStr text) :: rest) → text ≠ "" →
         m = pretty (status r) ++ ": " ++ text)
    ∧ (response err = None → request err = true →
         m = "No response from server")
    ∧ (response err = None → request err = false → message err ≠ "" →
         m = message err)
    ∧ (∀ j it, items s !! j = Some it →
         ∃ it', items s' !! j = Some it'
           ∧ if decide (id it = id (item tk))
             then stage it' = error ∧ errorMessage it' = Some m
                  ∧ statusText it' = "Error" ∧ same_upload it it'
             else it' = it)
    ∧ length (items s') = length (items s)
    ∧ uploads s' !! k = Some {| item := item tk; awaiting := Settled |}
    ∧ (∀ k', k' ≠ k → uploads s' !! k' = uploads s !! k')
    ∧ (∀ v u, step s' (Created k v u) = None)
    ∧ (∀ evt, step s' (Progress k evt) = None)
    ∧ step s' (Uploaded k) = None
    ∧ isUploading s' = isUploading s
    ∧ pollTimers s' = pollTimers s ∧ window s' = window s.
Proof.
  intros Hk Hflight Hm.
  destruct (failed_step s k tk err m Hk Hflight Hm)
    as (s' & Hstep & Hitems & Hlen & Hsettled & Hothers & Ht & Hw & Hb & _).
  exists s'. split; [done|].
  split; [by apply (extractAxiosError_nonempty err)|].
  split; [|split; [|split]].
  - intros r text rest Hr Htext Hne.
    rewrite (extractAxiosError_message_field err r text rest Hr Htext Hne) in Hm.
    by injection Hm.
  - intros Hr Hreq. rewrite (extractAxiosError_no_response err Hr), Hreq in Hm.
    by injection Hm.
  - intros Hr Hreq Hne.
    rewrite (extractAxiosError_no_response err Hr), Hreq in Hm.
    rewrite (eqb_empty_false _ Hne) in Hm. by injection Hm.
  - split; [|repeat split; try done; intros; simpl; by rewrite Hsettled].
    intros j it Hj. eexists. split; [by apply Hitems|]. by case_decide.
Qed.

Lemma pipeline_failure_witness :
  ∃ s', step during_second_upload (Failed 2 unauthorized) = Some s'
        ∧ (stage <$> items s' !! 0%nat) = Some error
        ∧ (errorMessage <$> items s' !! 0%nat)
          = Some (Some "401: invalid token")
        ∧ (videoId <$> items s' !! 0%nat) = Some (Some "v1").
Proof.
  destruct (pipeline_failure during_second_upload 2
              {| item := default sample_item (items after_first_run !! 0%nat);
                 awaiting := AwaitUpload "v1" "https://bucket.example/1" |}
              unauthorized "401: invalid token")
    as (s' & Hstep & _ & _ & _ & _ & Hitems & _);
    [vm_compute; reflexivity|by split|reflexivity|].
  exists s'. split; [exact Hstep|].
  destruct (Hitems 0%nat (default sample_item (items during_second_upload !! 0%nat)))
    as (it' & Hit' & Hfields); [vm_compute; reflexivity|].
  rewrite decide_True in Hfields by (vm_compute; reflexivity).
  destruct Hfields as (Hstage & Hmsg & _ & _ & _ & _ & _ & Hvid).
  rewrite Hit'. simpl. rewrite Hstage, Hmsg, Hvid. by repeat split.
Defined.

(** ** startUploads *)

Lemma startUploads_fields (s : App) :
  canUpload s = true →
  let s1 := startUploads s in
  isUploading s1 = true
  ∧ uploads s1
    = (uploads s
       ++ List.map (λ it, {| item := it; awaiting := AwaitCreate |}) (items s))%list
  ∧ awaited s1 = length (uploads s)
  ∧ items s1
    = foldl (λ acc it,
               updateItem (id it)
                 (λ prev, with_statusText "Creating video…"
                            (with_stage creating prev)) acc)
            (items s) (items s)
  ∧ requests s1 = requests s.
Proof.
  intros Hcan s1. unfold s1, startUploads. rewrite Hcan.
  destruct (foldl_item_start (items s) (setIsUploading true s))
    as (_ & _ & Hb & _ & _ & _ & _ & Hr & Hi).
  unfold setUploads; simpl. by rewrite Hr, Hi.
Qed.






(** What the end of an upload does (lines 223-231). *)
Lemma uploaded_step (s : App) (k : nat) (tk : Task) (v u : string) :
  uploads s !! k = Some tk → awaiting tk = AwaitUpload v u →
  ∃ s', step s (Uploaded k) = Some s'
    ∧ (∀ j it, items s !! j = Some it →
         items s' !! j
         = Some (if decide (id it = id (item tk))
                 then with_stage polling (mark_uploaded it) else it))
    ∧ uploads s' !! k = Some {| item := item tk; awaiting := Settled |}
    ∧ (∀ k', k' ≠ k → uploads s' !! k' = uploads s !! k')
    ∧ isUploading s' = isUploading s.
Proof.
  intros Hk Ha.
  exists (setAwaiting k Settled (item_uploaded (item tk) v s)). split.
  { simpl. rewrite Hk. destruct tk as [it a]. simpl in Ha. by subst a. }
  split; [|split; [|split]].
  - intros j it Hj. simpl. rewrite !updateItem_lookup, Hj. simpl.
    by repeat case_decide.
  - rewrite setAwaiting_lookup, decide_True by done. simpl. by rewrite Hk.
  - intros k' Hk'. rewrite setAwaiting_lookup, decide_False by done. done.
  - done.
Qed.

Lemma run_then_uploads (i : string) (data : jsval) (s : App) :
  uploads (run_then i data s) = uploads s.
Proof.
  unfold run_then, run_catch. by repeat case_match.
Qed.

Lemma run_catch_uploads (i : string) (err : AxiosError) (s : App) :
  uploads (run_catch i err s) = uploads s.
Proof. unfold run_catch. by case_match. Qed.



(** C4, the failing input: two files are sent off and the create request
    of the second is refused with a body whose [message] is an object that
    has a property called [toString].  The [catch] of that item throws, its
    promise is rejected, and with it the [Promise.all]: the [finally] clears
    the busy flag while the first file is still uploading and the second is
    still at [creating], and Upload All is enabled again. *)
Theorem startUploads_rejected :
  ∃ s', run init (rejecting_run ++ [AnyRejected]) = Some s'
        ∧ isUploading s' = false
        ∧ (stage <$> items s' !! 0%nat) = Some uploading
        ∧ (stage <$> items s' !! 1%nat) = Some creating
        ∧ (awaiting <$> uploads s' !! 0%nat)
          = Some (AwaitUpload "v0" "https://bucket.example/0")
        ∧ (awaiting <$> uploads s' !! 1%nat) = Some Rejected
        ∧ canUpload s' = true.
Proof. eexists. split; [vm_compute; reflexivity|]. by repeat split. Qed.



(** ** Progress *)

Lemma during_second_upload_reachable : reachable during_second_upload.
Proof.
  apply (reachable_run init _ second_run reach_init). vm_compute. reflexivity.
Qed.

Lemma run_then_progress (i : string) (data : jsval) (s : App) (j : nat)
    (it : UploadItem) :
  items s !! j = Some it →
  ∃ it', items (run_then i data s) !! j = Some it'
         ∧ progressPercent it' = progressPercent it.
Proof.
  intros Hj. destruct (normalize data) as [n|] eqn:Hd.
  - rewrite (run_then_items i data s j it n Hd Hj). eexists. split; [done|].
    by repeat case_match.
  - rewrite (run_then_unread i data s Hd), (run_catch_items _ _ s j it Hj).
    eexists. split; [done|]. by repeat case_match.
Qed.

(** C6, as the code has it: each progress report overwrites
    [progressPercent] of the item with the reported percentage, whatever it
    was; the end of the upload assigns exactly 100, first with stage
    [uploaded] and then, in the same handler, with stage [polling]; status
    responses and failed status requests leave the percentage alone. *)
Theorem progress_is_assigned (s : App) :
  (∀ k tk v u evt t,
     uploads s !! k = Some tk → awaiting tk = AwaitUpload v u →
     total evt = Some t → falsy_num t = false →
     ∃ s', step s (Progress k evt) = Some s'
           ∧ ∀ j it, items s !! j = Some it →
               items s' !! j
               = Some (if decide (id it = id (item tk))
                       then with_progressPercent (percent (loaded evt) t) it
                       else it))
  ∧ (∀ it, stage (mark_uploaded it) = uploaded
           ∧ progressPercent (mark_uploaded it) = 100%float)
  ∧ (∀ k tk v u,
       uploads s !! k = Some tk → awaiting tk = AwaitUpload v u →
       ∃ s', step s (Uploaded k) = Some s'
             ∧ ∀ j it, items s !! j = Some it →
                 ∃ it', items s' !! j = Some it'
                   ∧ if decide (id it = id (item tk))
                     then it' = with_stage polling (mark_uploaded it)
                          ∧ progressPercent it' = 100%float
                     else it' = it)
  ∧ (∀ i data j it, items s !! j = Some it →
       ∃ it', items (run_then i data s) !! j = Some it'
              ∧ progressPercent it' = progressPercent it)
  ∧ (∀ i err j it, items s !! j = Some it →
       ∃ it', items (run_catch i err s) !! j = Some it'
              ∧ progressPercent it' = progressPercent it).
Proof.
  split; [|split; [done|split; [|split]]].
  - intros k tk v u evt t Hk Ha Ht Hf.
    exists (onUploadProgress (item tk) evt s). split.
    { simpl. rewrite Hk. destruct tk as [x a]. simpl in Ha. by subst a. }
    intros j it Hj. unfold onUploadProgress. rewrite Ht, Hf. simpl.
    by rewrite updateItem_lookup, Hj.
  - intros k tk v u Hk Ha.
    destruct (uploaded_step s k tk v u Hk Ha) as (s' & Hstep & Hitems & _).
    exists s'. split; [done|]. intros j it Hj. eexists.
    split; [by apply Hitems|]. by case_decide.
  - intros i data j it Hj. by apply run_then_progress.
  - intros i err j it Hj. rewrite (run_catch_items i err s j it Hj).
    eexists. split; [done|]. by repeat case_match.
Qed.

Lemma progress_is_assigned_witness :
  ∃ s', step during_second_upload (Uploaded 2) = Some s'
        ∧ (progressPercent <$> items s' !! 0%nat) = Some 100%float.
Proof.
  destruct (progress_is_assigned during_second_upload) as (_ & _ & Hup & _).
  destruct (Hup 2%nat
              {| item := default sample_item (items after_first_run !! 0%nat);
                 awaiting := AwaitUpload "v1" "https://bucket.example/1" |}
              "v1" "https://bucket.example/1")
    as (s' & Hstep & _); [vm_compute; reflexivity|reflexivity|].
  exists s'. split; [exact Hstep|].
  vm_compute in Hstep. injection Hstep as <-. reflexivity.
Defined.

(** C6, counterexample: Upload All is pressed a second time while the first
    file is being polled.  The item enters [uploading] with the 100 of the
    first run and the first report of the new upload takes it down to 30;
    when the status request of the first run then answers "Ready" the item
    is [done] at 30. *)
Lemma progress_drops_on_second_run :
  ¬ never_drops_while_uploading ∧ ¬ complete_once_uploaded.
Proof.
  assert (Hs1 : step during_second_upload (Progress 2 early_progress)
                = Some (default init (step during_second_upload
                                        (Progress 2 early_progress))))
    by (vm_compute; reflexivity).
  set (s1 := default init (step during_second_upload (Progress 2 early_progress)))
    in Hs1.
  assert (Hs2 : step s1 (PollResponse 0 ready_body)
                = Some (default init (step s1 (PollResponse 0 ready_body))))
    by (vm_compute; reflexivity).
  set (s2 := default init (step s1 (PollResponse 0 ready_body))) in Hs2.
  pose proof during_second_upload_reachable as Hr0.
  pose proof (reach_step _ _ _ Hr0 Hs1) as Hr1.
  pose proof (reach_step _ _ _ Hr1 Hs2) as Hr2.
  split.
  - intros Hclaim.
    specialize (Hclaim during_second_upload (Progress 2 early_progress) s1 0%nat
                  (default sample_item (items during_second_upload !! 0%nat))
                  (default sample_item (items s1 !! 0%nat))
                  Hr0 Hs1).
    vm_compute in Hclaim.
    specialize (Hclaim eq_refl eq_refl eq_refl eq_refl). discriminate Hclaim.
  - intros Hclaim.
    specialize (Hclaim s2 (default sample_item (items s2 !! 0%nat)) Hr2).
    assert (Hin : default sample_item (items s2 !! 0%nat) ∈ items s2).
    { apply (list_elem_of_lookup_2 _ 0%nat). vm_compute. reflexivity. }
    specialize (Hclaim Hin).
    assert (Hst : stage (default sample_item (items s2 !! 0%nat)) = done)
      by (vm_compute; reflexivity).
    specialize (Hclaim (or_intror (or_intror Hst))).
    vm_compute in Hclaim. discriminate Hclaim.
Qed.

(** ** Doubles: what rounding keeps of a bound *)

Section Doubles.
Local Open Scope Z_scope.



(** *** Shifting to the right *)












(** *** Valid doubles and their order *)



(** *** The quotient of [0 <= l <= t] is at most 1 *)



(** *** Its hundredfold is at most 100 *)


(** *** Rounding to an integer *)





End Doubles.



(** * Further properties of the code *)

(** ** Selecting files (lines 63-73 and 88-103) *)

(** The list built from a selection: the first [MAX_FILES] files in their
    order, one fresh item for each, and nothing else of the state touched -
    neither the intervals nor the uploads that are under way. *)
Theorem handleFilesSelected_items (chosen : list File) (clock : nat → N)
    (s : App) :
  let s' := handleFilesSelected chosen clock s in
  files s' = take MAX_FILES chosen
  ∧ length (items s') = min MAX_FILES (length chosen)
  ∧ (∀ j it, items s' !! j = Some it →
       (j < MAX_FILES)%nat ∧ chosen !! j = Some (file it)
       ∧ title it = name (file it) ∧ stage it = pending
       ∧ progressPercent it = 0%float ∧ statusText it = "Pending"
       ∧ videoId it = None ∧ errorMessage it = None)
  ∧ pollTimers s' = pollTimers s ∧ window s' = window s
  ∧ uploads s' = uploads s ∧ isUploading s' = isUploading s
  ∧ requests s' = requests s.
Proof.
  intros s'. split; [done|]. split.
  { simpl. by rewrite length_imap, length_take. }
  split; [|done]. intros j it Hj. simpl in Hj.
  rewrite list_lookup_imap in Hj.
  destruct (take MAX_FILES chosen !! j) as [f|] eqn:Hf; [|done].
  injection Hj as <-. apply lookup_take_Some in Hf as [Hf Hlt]. done.
Qed.

Lemma dash_free_pretty_N_go (x : N) (s : string) :
  dash_free s → dash_free (pretty_N_go x s).
Proof.
  revert s. induction (N.lt_wf_0 x) as [x _ IH]; intros s Hs.
  destruct (decide (x = 0%N)) as [->|Hx]; [by rewrite pretty_N_go_0|].
  rewrite pretty_N_go_step by lia. apply IH; [apply N.div_lt; lia|].
  split; [|done]. unfold pretty_N_char. by repeat case_match.
Qed.

Lemma dash_free_pretty_N (x : N) : dash_free (pretty x).
Proof.
  unfold pretty, pretty_N. case_decide; [by split|].
  by apply dash_free_pretty_N_go.
Qed.

(** Two texts that agree after a dash-free head and a dash have the same
    head and the same rest. *)
Lemma split_at_dash (a a' b b' : string) :
  dash_free a → dash_free a' →
  a ++ "-" ++ b = a' ++ "-" ++ b' → a = a' ∧ b = b'.
Proof.
  revert a'. induction a as [|c a IH]; intros [|c' a'] Ha Ha' E; simpl in *.
  - by injection E.
  - injection E as <- _. by destruct Ha' as [? _].
  - injection E as -> _. by destruct Ha as [? _].
  - injection E as -> E. destruct Ha as [_ Ha], Ha' as [_ Ha'].
    destruct (IH a' Ha Ha' E) as [-> ->]. done.
Qed.

Lemma newItem_id_inj (clock : nat → N) (i j : nat) (f g : File) :
  id (newItem clock i f) = id (newItem clock j g) → i = j.
Proof.
  simpl. intros E.
  apply split_at_dash in E as [_ E]; [|apply dash_free_pretty_N..].
  apply split_at_dash in E as [E _]; [|apply dash_free_pretty_N..].
  by apply (inj pretty) in E.
Qed.

(** The ids of a selection are pairwise different, whatever the clock reads
    and whatever the files are called: the index is part of the id. *)
Theorem selected_ids_distinct (chosen : list File) (clock : nat → N)
    (s : App) :
  NoDup (id <$> items (handleFilesSelected chosen clock s)).
Proof.
  apply NoDup_alt. intros i j x Hi Hj. simpl in Hi, Hj.
  rewrite list_lookup_fmap, list_lookup_imap in Hi, Hj.
  destruct (take MAX_FILES chosen !! i) as [f|]; [|done].
  destruct (take MAX_FILES chosen !! j) as [g|]; [|done].
  apply (newItem_id_inj clock i j f g), (inj Some).
  etrans; [exact Hi|symmetry; exact Hj].
Qed.

(** The warning is there exactly when files were left out. *)
Theorem selectionWarning_iff (all : list File) :
  (selectionWarning all ≠ "" ↔ take MAX_FILES all ≠ all)
  ∧ (selectionWarning all = "" ↔ (length all ≤ MAX_FILES)%nat).
Proof.
  unfold selectionWarning. destruct (Nat.ltb_spec MAX_FILES (length all)) as [H|H].
  - split; split; try done; try lia.
    + intros _ E. apply (f_equal length) in E. rewrite length_take in E. lia.
  - split; split; try done. intros E. by rewrite take_ge in E.
Qed.

Lemma selectionWarning_iff_witness :
  selectionWarning three_files = ""
  ∧ selectionWarning (three_files ++ three_files ++ three_files ++ three_files)
    ≠ "".
Proof.
  destruct (selectionWarning_iff three_files) as [_ [_ H1]].
  destruct (selectionWarning_iff
              (three_files ++ three_files ++ three_files ++ three_files))
    as [[_ H2] _].
  split; [apply H1; simpl; unfold MAX_FILES; lia|].
  apply H2. discriminate.
Defined.

(** ** When an upload can start (lines 83-86 and 202-204) *)

Lemma ascii_of_code (c : ascii) (n : nat) :
  nat_of_ascii c = n → c = ascii_of_nat n.
Proof. intros <-. symmetry. apply ascii_nat_embedding. Qed.

Local Ltac in_white_spaces :=
  solve [ apply list_elem_of_In; unfold white_spaces; simpl;
          repeat (first [left; reflexivity | right]) ].

(** What [white_prefix] takes off is one of the white spaces. *)
Lemma white_prefix_Some (s r : string) :
  white_prefix s = Some r → ∃ w, w ∈ white_spaces ∧ s = w ++ r.
Proof.
  destruct s as [|c1 r1]; [done|]. cbn [white_prefix].
  set (a := nat_of_ascii c1). assert (Ha : nat_of_ascii c1 = a) by done.
  clearbody a. apply ascii_of_code in Ha. subst c1.
  destruct ((9 <=? a)%nat && (a <=? 13)%nat || (a =? 32)%nat) eqn:H1.
  { intros [= <-]. apply orb_true_iff in H1 as [H1|H1%Nat.eqb_eq].
    - apply andb_true_iff in H1 as [Hl%Nat.leb_le Hu%Nat.leb_le].
      assert (Hc : (a = 9 ∨ a = 10 ∨ a = 11 ∨ a = 12 ∨ a = 13)%nat) by lia.
      destruct Hc as [->|[->|[->|[->| ->]]]];
        (eexists (String _ ""); split; [|reflexivity]; in_white_spaces).
    - subst a. eexists (String _ ""); split; [|reflexivity]; in_white_spaces. }
  destruct r1 as [|c2 r2]; [done|]. cbv beta iota zeta.
  set (b := nat_of_ascii c2). assert (Hb : nat_of_ascii c2 = b) by done.
  clearbody b. apply ascii_of_code in Hb. subst c2.
  destruct ((a =? 194)%nat && (b =? 160)%nat) eqn:H2.
  { intros [= <-]. apply andb_true_iff in H2 as [E1%Nat.eqb_eq E2%Nat.eqb_eq].
    subst a b. eexists (String _ (String _ "")); split; [|reflexivity]; in_white_spaces. }
  destruct r2 as [|c3 r3]; [done|]. cbv beta iota zeta.
  set (d := nat_of_ascii c3). assert (Hd : nat_of_ascii c3 = d) by done.
  clearbody d. apply ascii_of_code in Hd. subst c3.
  clear H1 H2. destruct (_ || _) eqn:H3; [|done]. intros [= <-].
  repeat (apply orb_true_iff in H3 as [H3|H3]);
    repeat (apply andb_true_iff in H3 as [H3 ?]);
    repeat match goal with
           | H : (_ =? _)%nat = true |- _ => apply Nat.eqb_eq in H; subst
           | H : (_ <=? _)%nat = true |- _ => apply Nat.leb_le in H
           | H : _ || _ = true |- _ => apply orb_true_iff in H as [H|H]
           | H : _ && _ = true |- _ => apply andb_true_iff in H as [H ?]
           end;
    try (eexists (String _ (String _ (String _ ""))); split;
         [|reflexivity]; in_white_spaces).
  assert (Hc : (d = 128 ∨ d = 129 ∨ d = 130 ∨ d = 131 ∨ d = 132 ∨ d = 133
                ∨ d = 134 ∨ d = 135 ∨ d = 136 ∨ d = 137 ∨ d = 138)%nat)
    by lia.
  destruct Hc as [->|[->|[->|[->|[->|[->|[->|[->|[->|[->| ->]]]]]]]]]];
    (eexists (String _ (String _ (String _ ""))); split;
     [|reflexivity]; in_white_spaces).
Qed.

(** And every white space at the head is taken off. *)
Lemma white_prefix_white (w r : string) :
  w ∈ white_spaces → white_prefix (w ++ r) = Some r.
Proof.
  intros Hw. apply list_elem_of_In in Hw. unfold white_spaces in Hw.
  simpl in Hw.
  repeat (destruct Hw as [<-|Hw]; [reflexivity|]). destruct Hw.
Qed.

Lemma white_spaces_length (w : string) :
  w ∈ white_spaces → (0 < String.length w)%nat.
Proof.
  intros Hw. apply list_elem_of_In in Hw. unfold white_spaces in Hw.
  simpl in Hw.
  repeat (destruct Hw as [<-|Hw]; [simpl; lia|]). destruct Hw.
Qed.

Lemma length_append (a b : string) :
  String.length (a ++ b) = (String.length a + String.length b)%nat.
Proof. induction a as [|c a IH]; simpl; [done|]. by rewrite IH. Qed.

Lemma trimStart_upto_white (fuel : nat) (s : string) :
  trimStart_upto fuel s = "" → white_only s.
Proof.
  revert s. induction fuel as [|fuel IH]; intros s; simpl.
  - intros ->. constructor.
  - destruct (white_prefix s) as [r|] eqn:Hp.
    + intros Hr. apply white_prefix_Some in Hp as (w & Hw & ->).
      constructor; [done|]. by apply IH.
    + intros ->. constructor.
Qed.

Lemma white_trimStart_upto (fuel : nat) (s : string) :
  white_only s → (String.length s ≤ fuel)%nat → trimStart_upto fuel s = "".
Proof.
  intros Hs. revert fuel. induction Hs as [|w s Hw Hs IH]; intros fuel Hlen.
  - by destruct fuel.
  - pose proof (white_spaces_length w Hw). rewrite length_append in Hlen.
    destruct fuel as [|fuel]; [lia|]. simpl.
    rewrite (white_prefix_white w s Hw). apply IH. lia.
Qed.

Lemma all_white_spec (s : string) : all_white s = true ↔ white_only s.
Proof.
  unfold all_white, trimStart. rewrite String.eqb_eq. split.
  - apply trimStart_upto_white.
  - intros Hs. by apply white_trimStart_upto.
Qed.

(** What [trimStart] leaves does not begin with white space. *)
Lemma trimStart_upto_done (fuel : nat) (s : string) :
  (String.length s ≤ fuel)%nat →
  white_prefix (trimStart_upto fuel s) = None.
Proof.
  revert s. induction fuel as [|fuel IH]; intros s Hlen; simpl.
  - destruct s; [done|simpl in Hlen; lia].
  - destruct (white_prefix s) as [r|] eqn:Hp; [|done].
    apply IH. apply white_prefix_Some in Hp as (w & Hw & ->).
    pose proof (white_spaces_length w Hw). rewrite length_append in Hlen. lia.
Qed.

Lemma trimEnd_empty (s : string) : trimEnd s = "" ↔ all_white s = true.
Proof.
  destruct s as [|c s]; [done|]. cbn [trimEnd].
  by destruct (all_white (String c s)).
Qed.

Lemma trim_empty (s : string) : trim s = "" ↔ white_only s.
Proof.
  unfold trim. rewrite trimEnd_empty, <- all_white_spec.
  unfold all_white at 1. rewrite String.eqb_eq.
  assert (Hidem : trimStart (trimStart s) = trimStart s).
  { unfold trimStart at 1.
    pose proof (trimStart_upto_done (String.length s) s (le_n _)) as Hp.
    fold (trimStart s) in Hp.
    destruct (String.length (trimStart s)); simpl; [done|]. by rewrite Hp. }
  rewrite Hidem. unfold all_white. by rewrite String.eqb_eq.
Qed.

(** Upload All does something exactly when the token is not white space
    only, there is an item, and no run is under way. *)
Theorem canUpload_iff (s : App) :
  canUpload s = true
  ↔ ¬ white_only (token s) ∧ items s ≠ [] ∧ isUploading s = false.
Proof.
  unfold canUpload. rewrite !andb_true_iff, negb_true_iff, !Nat.ltb_lt.
  rewrite <- trim_empty.
  assert (Hlen : ∀ x : string, (0 < String.length x)%nat ↔ x ≠ "").
  { intros [|??]; simpl; split; try done; lia. }
  rewrite Hlen. destruct (items s); simpl; split; intros [[??]?] || intros (?&?&?);
    try done; try lia; repeat split; try done; lia.
Qed.

Lemma canUpload_iff_witness :
  canUpload after_first_run = true
  ∧ canUpload (setToken blank_token after_first_run) = false
  ∧ white_only blank_token.
Proof.
  split; [vm_compute; reflexivity|].
  assert (Hblank : white_only blank_token).
  { apply (white_only_more blank_token ""); [in_white_spaces|constructor]. }
  split; [|exact Hblank].
  destruct (canUpload (setToken blank_token after_first_run)) eqn:E;
    [|reflexivity].
  apply canUpload_iff in E as (Hno & _). by destruct Hno.
Defined.

Lemma startUploads_disables (s : App) : canUpload (startUploads s) = false.
Proof.
  destruct (canUpload s) eqn:Hcan.
  - destruct (startUploads_fields s Hcan) as (Hb & _).
    unfold canUpload. rewrite Hb. simpl. by rewrite andb_false_r.
  - unfold startUploads. by rewrite Hcan.
Qed.

(** Pressing Upload All again before the run is over does nothing. *)
Theorem startUploads_twice (s : App) :
  startUploads (startUploads s) = startUploads s.
Proof.
  unfold startUploads at 1. by rewrite startUploads_disables.
Qed.

Lemma run_over_same (s s' : App) :
  uploads s' = uploads s → awaited s' = awaited s → run_over s → run_over s'.
Proof. unfold run_over. by intros -> ->. Qed.

(** A promise in flight that moves on leaves a run that is over as it is. *)
Lemma run_over_setAwaiting (s s0 : App) (k : nat) (t : Task) (a : Await) :
  uploads s0 = uploads s → awaited s0 = awaited s →
  uploads s !! k = Some t → in_flight t →
  run_over s → run_over (setAwaiting k a s0).
Proof.
  intros Hu Ha Hk [Hns Hnr] [Hall|(i & t' & Hi & Hrej)]; [left|right].
  - intros i t' Hi. simpl in Hi. rewrite Ha, Hu in Hi.
    destruct (decide (k = awaited s + i)%nat) as [->|Hne].
    + by apply Hall in Hk.
    + rewrite list_lookup_alter_ne in Hi by done. by apply (Hall i).
  - exists i, t'. simpl. rewrite Ha, Hu. split; [|done].
    rewrite list_lookup_alter_ne; [done|]. intros ->. congruence.
Qed.

Lemma idle_run_over (s : App) :
  reachable s → isUploading s = false → run_over s.
Proof.
  induction 1 as [|s e s' _ IH Hstep].
  { intros _. left. intros i t. simpl. by rewrite lookup_nil. }
  destruct e as [chosen clock|tok| |k v u|k evt|k|k err| | |t|k data|k err| ];
    simpl in Hstep.
  - injection Hstep as <-. intros Hb. by apply (run_over_same s), IH.
  - injection Hstep as <-. intros Hb. by apply (run_over_same s), IH.
  - injection Hstep as <-. destruct (canUpload s) eqn:Hcan.
    + destruct (startUploads_fields s Hcan) as (-> & _). done.
    + unfold startUploads. by rewrite Hcan.
  - destruct (uploads s !! k) as [[it []]|] eqn:Hk; try done.
    injection Hstep as <-. intros Hb.
    by apply (run_over_setAwaiting s _ k _ _ eq_refl eq_refl Hk); [|apply IH].
  - destruct (uploads s !! k) as [[it []]|]; try done.
    injection Hstep as <-. unfold onUploadProgress.
    repeat case_match; intros Hb; by apply (run_over_same s), IH.
  - destruct (uploads s !! k) as [[it [|videoId0 url| |]]|] eqn:Hk; try done.
    injection Hstep as <-. intros Hb.
    by apply (run_over_setAwaiting s _ k _ _ eq_refl eq_refl Hk); [|apply IH].
  - unfold item_catch in Hstep.
    destruct (uploads s !! k) as [[it []]|] eqn:Hk; try done;
      destruct (extractAxiosError err); injection Hstep as <-; intros Hb;
      by apply (run_over_setAwaiting s _ k _ _ eq_refl eq_refl Hk); [|apply IH].
  - destruct (isUploading s) eqn:Hb; simpl in Hstep; [|done].
    destruct (forallb settled (current s)) eqn:Hall; [|done].
    injection Hstep as <-. intros _. left. simpl. intros i t Hi.
    rewrite forallb_forall in Hall. unfold current in Hall.
    rewrite <- lookup_drop in Hi.
    apply list_elem_of_lookup_2, list_elem_of_In, Hall in Hi.
    unfold settled in Hi. by destruct (awaiting t).
  - destruct (isUploading s) eqn:Hb; simpl in Hstep; [|done].
    destruct (existsb rejected (current s)) eqn:Hany; [|done].
    injection Hstep as <-. intros _. right. simpl.
    apply existsb_exists in Hany as (t & Hin & Ht).
    apply list_elem_of_In, list_elem_of_lookup in Hin as [i Hi].
    unfold current in Hi. rewrite lookup_drop in Hi.
    exists i, t. split; [done|]. unfold rejected in Ht. by destruct (awaiting t).
  - destruct (active (window s) !! t); [|done]. injection Hstep as <-.
    intros Hb. by apply (run_over_same s), IH.
  - destruct (requests s !! k) as [p|]; [|done]. injection Hstep as <-.
    intros Hb. apply (run_over_same s).
    + by rewrite run_then_uploads.
    + unfold run_then, run_catch. by repeat case_match.
    + apply IH. revert Hb. unfold run_then, run_catch. by repeat case_match.
  - destruct (requests s !! k) as [p|]; [|done]. injection Hstep as <-.
    intros Hb. apply (run_over_same s).
    + by rewrite run_catch_uploads.
    + unfold run_catch. by case_match.
    + apply IH. revert Hb. unfold run_catch. by case_match.
  - injection Hstep as <-. intros Hb. by apply (run_over_same s), IH.
Qed.

(** As long as the busy flag is down the latest run is over: every promise
    of its [Promise.all] is fulfilled, or one of them was rejected. *)
Theorem idle_means_settled (s : App) :
  reachable s → isUploading s = false →
  Forall (λ t, awaiting t = Settled) (current s)
  ∨ Exists (λ t, awaiting t = Rejected) (current s).
Proof.
  intros Hreach Hb.
  destruct (idle_run_over s Hreach Hb) as [Hall|(i & t & Hi & Ht)];
    [left|right].
  - apply Forall_lookup. intros i t Hi. unfold current in Hi.
    rewrite lookup_drop in Hi. by apply (Hall i).
  - apply Exists_exists. exists t. split; [|done].
    apply (list_elem_of_lookup_2 _ i). unfold current. by rewrite lookup_drop.
Qed.

Lemma idle_means_settled_witness :
  reachable after_first_run ∧ isUploading after_first_run = false
  ∧ Forall (λ t, awaiting t = Settled) (current after_first_run).
Proof.
  split; [apply after_first_run_reachable|]. split; [reflexivity|].
  destruct (idle_means_settled after_first_run after_first_run_reachable
              eq_refl) as [H|H]; [exact H|].
  exfalso. apply Exists_exists in H as (t & Hin & Ht).
  vm_compute in Hin. apply list_elem_of_In in Hin.
  destruct Hin as [<-|[<-|[]]]; discriminate Ht.
Defined.

(** ** What the handlers do to an item *)

Lemma updateItem_Forall2 (R : UploadItem → UploadItem → Prop)
    (i : string) (f : UploadItem → UploadItem) (l l1 : list UploadItem) :
  (∀ x x', R x x' → R x (f x')) →
  Forall2 R l l1 → Forall2 R l (updateItem i f l1).
Proof.
  intros Hf. induction 1 as [|x x' l l1 Hx _ IH]; simpl; [constructor|].
  constructor; [|done]. destruct (String.eqb (id x') i); auto.
Qed.

Lemma Forall2_updated_refl (l : list UploadItem) : Forall2 updated l l.
Proof. induction l; constructor; [constructor|done]. Qed.

Lemma foldl_item_start_updated (l l0 acc : list UploadItem) :
  Forall2 updated l0 acc →
  Forall2 updated l0
    (foldl (λ acc it,
              updateItem (id it)
                (λ prev, with_statusText "Creating video…"
                           (with_stage creating prev)) acc) acc l).
Proof.
  revert acc. induction l as [|it l IH]; intros acc Hacc; simpl; [done|].
  apply IH, updateItem_Forall2; [|done].
  intros x x' Hx. by apply updated_statusText, updated_stage.
Qed.

(** Every step that keeps the list only applies updaters to its items. *)
Lemma step_updated (s s' : App) (e : event) :
  step s e = Some s' → replaces_items e = false →
  Forall2 updated (items s) (items s').
Proof.
  intros Hstep He.
  destruct e as [chosen clock|tok| |k v u|k evt|k|k err| | |t|k data|k err| ];
    simpl in Hstep; try done.
  - injection Hstep as <-. apply Forall2_updated_refl.
  - injection Hstep as <-. destruct (canUpload s) eqn:Hcan.
    + destruct (startUploads_fields s Hcan) as (_ & _ & _ & -> & _).
      apply foldl_item_start_updated, Forall2_updated_refl.
    + unfold startUploads. rewrite Hcan. apply Forall2_updated_refl.
  - destruct (uploads s !! k) as [[it []]|]; try done.
    injection Hstep as <-. simpl.
    apply updateItem_Forall2; [|apply Forall2_updated_refl].
    intros x x' Hx.
    by apply updated_statusText, updated_stage, updated_videoId.
  - destruct (uploads s !! k) as [[it []]|]; try done.
    injection Hstep as <-. unfold onUploadProgress.
    repeat case_match; try apply Forall2_updated_refl. simpl.
    apply updateItem_Forall2; [|apply Forall2_updated_refl].
    intros x x' Hx. by apply updated_progressPercent.
  - destruct (uploads s !! k) as [[it []]|]; try done.
    injection Hstep as <-. simpl.
    apply updateItem_Forall2; [intros x x' Hx; by apply updated_stage|].
    apply updateItem_Forall2; [|apply Forall2_updated_refl].
    intros x x' Hx. unfold mark_uploaded.
    by apply updated_progressPercent, updated_statusText, updated_stage.
  - assert (Hs' : ∃ it, s' = match item_catch it err s with
                              | Some s1 => setAwaiting k Settled s1
                              | None => setAwaiting k Rejected s
                              end).
    { destruct (uploads s !! k) as [[it []]|]; try done; exists it;
        destruct (item_catch it err s); by injection Hstep as <-. }
    destruct Hs' as [it ->]. unfold item_catch.
    destruct (extractAxiosError err) as [m|] eqn:Hm;
      [|apply Forall2_updated_refl]. simpl.
    apply updateItem_Forall2; [|apply Forall2_updated_refl].
    intros x x' Hx. apply updated_statusText, updated_error; [|done].
    by apply (extractAxiosError_nonempty err).
  - destruct (_ && _); [|done]. injection Hstep as <-.
    apply Forall2_updated_refl.
  - destruct (_ && _); [|done]. injection Hstep as <-.
    apply Forall2_updated_refl.
  - destruct (active (window s) !! t); [|done]. injection Hstep as <-.
    apply Forall2_updated_refl.
  - destruct (requests s !! k) as [p|]; [|done]. injection Hstep as <-.
    unfold run_then. destruct (normalize data) as [n|].
    2: { unfold run_catch. destruct (extractAxiosError _);
           [|apply Forall2_updated_refl]. simpl.
         apply updateItem_Forall2; [|apply Forall2_updated_refl].
         intros x x' Hx. by apply updated_statusText. }
    assert (H1 : Forall2 updated (items s)
                   (updateItem (poll_item p) (with_statusText n)
                      (items s))).
    { apply updateItem_Forall2; [|apply Forall2_updated_refl].
      intros x x' Hx. by apply updated_statusText. }
    repeat case_match; simpl; [| |done].
    + apply updateItem_Forall2; [|done]. intros x x' Hx. by apply updated_stage.
    + apply updateItem_Forall2; [|done]. intros x x' Hx.
      apply updated_error; [|done]. by apply append_nonempty_l.
  - destruct (requests s !! k) as [p|]; [|done]. injection Hstep as <-.
    unfold run_catch. destruct (extractAxiosError _);
      [|apply Forall2_updated_refl]. simpl.
    apply updateItem_Forall2; [|apply Forall2_updated_refl].
    intros x x' Hx. by apply updated_statusText.
Qed.

Lemma updated_keeps (x x' : UploadItem) :
  updated x x' →
  identity x' = identity x
  ∧ (is_Some (videoId x) → is_Some (videoId x'))
  ∧ (is_Some (errorMessage x) → is_Some (errorMessage x'))
  ∧ (error_has_message x → error_has_message x').
Proof.
  induction 1 as [|x' txt _ IH|x' st Hst _ IH|x' m Hm _ IH|x' v _ IH|x' p _ IH];
    try destruct IH as (Hid & Hv & Hm' & Herr);
    repeat split; try done; unfold error_has_message in *; simpl; eauto;
    try (intros; done).
Qed.

(** A step that keeps the list keeps, position by position, the id, the
    file and the title of every item, and never takes away a [videoId] or an
    [errorMessage] that an item has. *)
Theorem step_keeps_items (s s' : App) (e : event) :
  step s e = Some s' → replaces_items e = false →
  length (items s') = length (items s)
  ∧ ∀ j x, items s !! j = Some x →
      ∃ x', items s' !! j = Some x'
        ∧ id x' = id x ∧ file x' = file x ∧ title x' = title x
        ∧ (is_Some (videoId x) → is_Some (videoId x'))
        ∧ (is_Some (errorMessage x) → is_Some (errorMessage x')).
Proof.
  intros Hstep He. pose proof (step_updated s s' e Hstep He) as H.
  split; [symmetry; by eapply Forall2_length|].
  intros j x Hj. destruct (Forall2_lookup_l _ _ _ _ _ H Hj) as (x' & Hj' & Hx).
  exists x'. split; [done|].
  destruct (updated_keeps x x' Hx) as (Hid & Hv & Hm & _).
  injection Hid as -> -> ->. done.
Qed.

Lemma step_keeps_items_witness :
  ∃ s', step after_first_run StartUploads = Some s'
        ∧ length (items s') = length (items after_first_run).
Proof.
  exists (startUploads after_first_run). split; [reflexivity|].
  exact (proj1 (step_keeps_items after_first_run _ StartUploads eq_refl eq_refl)).
Defined.

(** In every reachable state an item whose stage is [error] carries an
    [errorMessage], and a non-empty one. *)
Theorem error_stage_has_message (s : App) :
  reachable s → Forall error_has_message (items s).
Proof.
  induction 1 as [|s e s' _ IH Hstep]; [constructor|].
  destruct (replaces_items e) eqn:He.
  - destruct e; try done; simpl in Hstep; injection Hstep as <-; simpl.
    + apply Forall_forall. intros it Hin.
      apply list_elem_of_lookup in Hin as [j Hj].
      rewrite list_lookup_imap in Hj.
      destruct (take MAX_FILES chosen !! j); [|done]. injection Hj as <-.
      by intros ?.
    + constructor.
  - pose proof (step_updated s s' e Hstep He) as H.
    apply Forall_lookup. intros j x' Hj'.
    destruct (Forall2_lookup_r _ _ _ _ _ H Hj') as (x & Hj & Hx).
    apply (updated_keeps x x' Hx). rewrite Forall_lookup in IH.
    by apply (IH j).
Qed.

Lemma error_stage_has_message_witness :
  reachable after_first_run ∧ Forall error_has_message (items after_first_run).
Proof.
  split; [apply after_first_run_reachable|].
  apply error_stage_has_message, after_first_run_reachable.
Defined.

(** ** Registry and intervals, both ways *)

Lemma registry_live_same (s s' : App) :
  pollTimers s' = pollTimers s → window s' = window s →
  registry_live s → registry_live s'.
Proof. unfold registry_live. by intros -> ->. Qed.

(** Two entries of the registry never share a handle. *)
Lemma registry_handles_differ (s : App) (i j : string) (t : N) :
  timers_ok s → registry_live s →
  pollTimers s !! i = Some t → pollTimers s !! j = Some t → i = j.
Proof.
  intros _ Hlive Hi Hj. destruct (Hlive i t Hi) as [v Hv].
  destruct (Hlive j t Hj) as [v' Hv']. congruence.
Qed.

Lemma stopTimer_live (s : App) (i : string) :
  timers_ok s → registry_live s → registry_live (stopTimer i s).
Proof.
  intros Hok Hlive j t Hj. unfold stopTimer in *; simpl in *.
  apply lookup_delete_Some in Hj as [Hne Hj].
  destruct (Hlive j t Hj) as [v Hv]. exists v.
  destruct (pollTimers s !! i) as [h|] eqn:Hi; [|done].
  rewrite <- Hi, (clearIfSet_registered s i h Hok Hi). simpl.
  rewrite lookup_delete_ne; [done|]. intros <-.
  by destruct Hne, (registry_handles_differ s i j h Hok Hlive Hi Hj).
Qed.

Lemma pollVideoStatus_live (s : App) (i v : string) :
  timers_ok s → registry_live s → registry_live (pollVideoStatus i v s).
Proof.
  intros Hok Hlive j t Hj. pose proof Hok as (_ & _ & Hreg).
  unfold pollVideoStatus, setInterval in *; simpl in *.
  rewrite clearIfSet_next in *.
  apply lookup_insert_Some in Hj as [[<- <-]|[Hne Hj]].
  { exists v. by rewrite lookup_insert_eq. }
  destruct (Hlive j t Hj) as [v' Hv']. exists v'.
  rewrite lookup_insert_ne by (apply Hreg in Hj; lia).
  destruct (pollTimers s !! i) as [h|] eqn:Hi; [|done].
  rewrite <- Hi, (clearIfSet_registered s i h Hok Hi). simpl.
  rewrite lookup_delete_ne; [done|]. intros <-.
  by destruct Hne, (registry_handles_differ s i j h Hok Hlive Hi Hj).
Qed.

Lemma run_then_live (s : App) (i : string) (data : jsval) :
  timers_ok s → registry_live s → registry_live (run_then i data s).
Proof.
  intros Hok Hlive. unfold run_then. destruct (normalize data) as [n|].
  2: { destruct (run_catch_timers i (TypeError_status data) s).
       by apply (registry_live_same s). }
  repeat case_match; try (by apply (registry_live_same s));
    (apply stopTimer_live;
       [by apply (timers_ok_same s)|by apply (registry_live_same s)]).
Qed.

Lemma step_registry_live (s s' : App) (e : event) :
  timers_ok s → registry_live s → step s e = Some s' → registry_live s'.
Proof.
  intros Hok Hlive Hstep.
  destruct e as [chosen clock|tok| |k v u|k evt|k|k err| | |t|k data|k err| ];
    simpl in Hstep.
  - injection Hstep as <-. by apply (registry_live_same s).
  - injection Hstep as <-. by apply (registry_live_same s).
  - injection Hstep as <-.
    destruct (startUploads_timers s). by apply (registry_live_same s).
  - destruct (uploads s !! k) as [[it []]|]; try done.
    injection Hstep as <-. by apply (registry_live_same s).
  - destruct (uploads s !! k) as [[it []]|]; try done.
    injection Hstep as <-. unfold onUploadProgress.
    repeat case_match; by apply (registry_live_same s).
  - destruct (uploads s !! k) as [[it [|v0 u0| |]]|]; try done.
    injection Hstep as <-.
    apply (registry_live_same (pollVideoStatus (id it) v0 s)); [done..|].
    by apply pollVideoStatus_live.
  - destruct (uploads s !! k) as [[it []]|]; try done;
      unfold item_catch in Hstep; destruct (extractAxiosError err);
      injection Hstep as <-; by apply (registry_live_same s).
  - destruct (_ && _); [|done].
    injection Hstep as <-. by apply (registry_live_same s).
  - destruct (_ && _); [|done].
    injection Hstep as <-. by apply (registry_live_same s).
  - destruct (active (window s) !! t); [|done].
    injection Hstep as <-. by apply (registry_live_same s).
  - destruct (requests s !! k) as [p|]; [|done]. injection Hstep as <-.
    apply run_then_live;
      [by apply (timers_ok_same s)|by apply (registry_live_same s)].
  - destruct (requests s !! k) as [p|]; [|done]. injection Hstep as <-.
    destruct (run_catch_timers (poll_item p) err
                (setRequests (delete k (requests s)) s)).
    by apply (registry_live_same s).
  - injection Hstep as <-. intros i t Hi. unfold clearAll in Hi; simpl in Hi.
    by rewrite lookup_empty in Hi.
Qed.

Lemma reachable_registry_live (s : App) : reachable s → registry_live s.
Proof.
  induction 1 as [|s e s' Hreach IH Hstep].
  - intros i t Hi. simpl in Hi. by rewrite lookup_empty in Hi.
  - apply (step_registry_live s s' e); [|done..].
    by apply reachable_timers_ok.
Qed.

(** In every reachable state the registry and the active intervals match
    one to one: [t] is registered for item [i] exactly when [t] is an active
    interval that polls for [i].  No entry is stale and no interval is out
    of reach of [clearAll]. *)
Theorem registry_matches_intervals (s : App) (i : string) (t : N) :
  reachable s →
  pollTimers s !! i = Some t
  ↔ ∃ v, active (window s) !! t = Some {| poll_item := i; poll_video := v |}.
Proof.
  intros Hreach. split.
  - by apply reachable_registry_live.
  - intros [v Hv]. destruct (reachable_timers_ok s Hreach) as (_ & Hact & _).
    by apply Hact in Hv.
Qed.

Lemma registry_matches_intervals_witness :
  reachable after_first_run
  ∧ ∃ v, active (window after_first_run) !! 1%N
         = Some {| poll_item := "1-0-a.mp4"; poll_video := v |}.
Proof.
  split; [apply after_first_run_reachable|].
  apply (registry_matches_intervals after_first_run "1-0-a.mp4" 1%N
           after_first_run_reachable).
  vm_compute. reflexivity.
Defined.

(** ** clearAll and unmounting against work in flight *)

(** [clearAll] does not stop the uploads that are under way: one that
    completes afterwards still starts an interval, registered for an item
    that is no longer in the list. *)
Theorem upload_outlives_clearAll (s : App) (k : nat) (tk : Task)
    (v u : string) :
  reachable s → uploads s !! k = Some tk → awaiting tk = AwaitUpload v u →
  ∃ s', run s [ClearAll; Uploaded k] = Some s'
        ∧ items s' = []
        ∧ pollTimers s' = {[ id (item tk) := next (window s) ]}
        ∧ active (window s')
          = {[ next (window s) :=
                 {| poll_item := id (item tk); poll_video := v |} ]}.
Proof.
  intros Hreach Hk Ha. pose proof (reachable_timers_ok s Hreach) as Hok.
  destruct (clearAll_window s Hok) as [Hempty Hnext].
  destruct tk as [it a]. simpl in Ha. subst a.
  eexists. split.
  { simpl. change (uploads (clearAll s)) with (uploads s). by rewrite Hk. }
  split; [done|]. simpl. rewrite lookup_empty. simpl.
  change (map_fold _ _ _) with (window (clearAll s)).
  by rewrite Hempty, Hnext.
Qed.

Lemma upload_outlives_clearAll_witness :
  reachable during_second_upload
  ∧ ∃ s', run during_second_upload [ClearAll; Uploaded 2] = Some s'
          ∧ items s' = [] ∧ size (pollTimers s') = 1%nat.
Proof.
  split; [apply during_second_upload_reachable|].
  destruct (upload_outlives_clearAll during_second_upload 2
              {| item := default sample_item (items after_first_run !! 0%nat);
                 awaiting := AwaitUpload "v1" "https://bucket.example/1" |}
              "v1" "https://bucket.example/1" during_second_upload_reachable)
    as (s' & Hrun & Hitems & Hm & _); [vm_compute; reflexivity|reflexivity|].
  exists s'. split; [exact Hrun|]. split; [exact Hitems|].
  rewrite Hm. apply map_size_singleton.
Defined.

(** A status answer, or a failed status request, for an item that is not
    in the list and has no entry in the registry changes nothing, whatever
    it says.  That is the state [clearAll] leaves, until an upload that was
    under way completes and registers its interval. *)
Theorem late_status_after_clearAll (s : App) (i : string) (data : jsval)
    (err : AxiosError) :
  (∀ it, it ∈ items s → id it ≠ i) → pollTimers s !! i = None →
  run_then i data s = s ∧ run_catch i err s = s.
Proof.
  intros Hgone Hreg.
  assert (Hitems : ∀ f, setItems (updateItem i f) s = s).
  { intros f. unfold setItems. rewrite (updateItem_absent i f _ Hgone).
    by destruct s. }
  assert (Hstop : stopTimer i s = s).
  { unfold stopTimer. rewrite Hreg, (delete_id _ _ Hreg). by destruct s. }
  assert (Hcatch : ∀ e, run_catch i e s = s).
  { intros e. unfold run_catch. by destruct (extractAxiosError e). }
  split; [|done]. unfold run_then.
  destruct (normalize data) as [n|]; [|done].
  repeat case_match; by rewrite ?Hitems, ?Hstop.
Qed.

Lemma late_status_after_clearAll_witness :
  run_then "1-0-a.mp4" ready_body (clearAll after_first_run)
  = clearAll after_first_run
  ∧ run_catch "1-0-a.mp4" unauthorized (clearAll after_first_run)
    = clearAll after_first_run.
Proof.
  apply late_status_after_clearAll.
  - intros it Hin. unfold clearAll in Hin. simpl in Hin.
    by apply elem_of_nil in Hin.
  - unfold clearAll. simpl. apply lookup_empty.
Defined.

(** Unmounting cancels every interval of a reachable state and empties the
    registry; the items stay.  [clearAll] is this cleanup followed by
    emptying the files and the items. *)
Theorem unmount_cancels_all (s : App) :
  reachable s →
  active (window (unmount s)) = ∅ ∧ pollTimers (unmount s) = ∅
  ∧ items (unmount s) = items s
  ∧ clearAll s = setItems (λ _, []) (setFiles [] (unmount s)).
Proof.
  intros Hreach. pose proof (reachable_timers_ok s Hreach) as Hok.
  destruct (clearAll_window s Hok) as [Hempty _]. done.
Qed.

Lemma unmount_cancels_all_witness :
  reachable after_first_run
  ∧ size (active (window after_first_run)) = 1%nat
  ∧ active (window (unmount after_first_run)) = ∅.
Proof.
  split; [apply after_first_run_reachable|].
  split; [vm_compute; reflexivity|].
  exact (proj1 (unmount_cancels_all after_first_run after_first_run_reachable)).
Defined.

(** ** The text of a status answer *)

(** Whatever the body of a status answer is - a status, none, or not even an
    object - the item's [statusText] is not empty afterwards; a body that is
    [null] or [undefined] is reported as a poll error, "Poll error: " and
    what the engine says, on the items of that id, and leaves every stage,
    every other item, the registry and the intervals as they were. *)
Theorem status_answer_text (s : App) (i : string) (data : jsval) :
  (∀ j it, items s !! j = Some it → id it = i →
     ∃ it', items (run_then i data s) !! j = Some it' ∧ statusText it' ≠ "")
  ∧ (nullish data = true →
       ∃ m, m ≠ ""
         ∧ pollTimers (run_then i data s) = pollTimers s
         ∧ window (run_then i data s) = window s
         ∧ ∀ j it, items s !! j = Some it →
             ∃ it', items (run_then i data s) !! j = Some it'
                    ∧ stage it' = stage it
                    ∧ (id it = i → statusText it' = "Poll error: " ++ m)
                    ∧ (id it ≠ i → it' = it)).
Proof.
  destruct (extractAxiosError_TypeError data) as (m & Hm & Hne).
  split.
  - intros j it Hj Hid. destruct (normalize data) as [n|] eqn:Hd.
    + rewrite (run_then_items i data s j it n Hd Hj), decide_True by done.
      eexists. split; [done|].
      repeat case_match; simpl; by apply (normalize_nonempty data).
    + rewrite (run_then_unread i data s Hd), (run_catch_items _ _ s j it Hj).
      rewrite Hm, decide_True by done. eexists. split; [done|]. simpl.
      discriminate.
  - intros Hnull. assert (Hd : normalize data = None).
    { unfold normalize. by rewrite Hnull. }
    exists m. split; [done|]. rewrite (run_then_unread i data s Hd).
    destruct (run_catch_timers i (TypeError_status data) s) as [-> ->].
    split; [done|]. split; [done|]. intros j it Hj.
    rewrite (run_catch_items _ _ s j it Hj), Hm. eexists. split; [done|].
    case_decide; by repeat split.
Qed.

Lemma status_answer_text_witness :
  ∃ m, m ≠ ""
    ∧ (statusText <$> items (run_then "1-0-a.mp4" JNull after_first_run)
                        !! 0%nat) = Some ("Poll error: " ++ m)
    ∧ pollTimers (run_then "1-0-a.mp4" JNull after_first_run)
      = pollTimers after_first_run.
Proof.
  destruct (proj2 (status_answer_text after_first_run "1-0-a.mp4" JNull)
              eq_refl) as (m & Hne & Ht & _ & Hitems).
  exists m. split; [exact Hne|]. split; [|exact Ht].
  destruct (Hitems 0%nat _ eq_refl) as (it' & Hit' & _ & Htext & _).
  rewrite Hit'. simpl. by rewrite Htext.
Defined.

(** ** The API base and the stored settings *)

Lemma apiBaseSanitized_slash (r : string) : apiBaseSanitized (r ++ "/") = r.
Proof.
  induction r as [|c r IH]; [done|]. simpl.
  destruct (r ++ "/") as [|c' r'] eqn:E.
  - by destruct r.
  - by rewrite IH.
Qed.

Lemma apiBaseSanitized_other (b : string) :
  (∀ r, b ≠ r ++ "/") → apiBaseSanitized b = b.
Proof.
  induction b as [|c b IH]; intros Hno; [done|]. simpl.
  destruct b as [|c' b'].
  - destruct (Ascii.eqb_spec c "/") as [->|]; [|done]. by destruct (Hno "").
  - f_equal. apply IH. intros r E. apply (Hno (String c r)). simpl.
    by rewrite E.
Qed.

(** The sanitized API base: one slash at the very end is dropped, anything
    else is kept as it is - so of two slashes at the end one stays. *)
Theorem apiBaseSanitized_cases (b : string) :
  (∀ r, b = r ++ "/" → apiBaseSanitized b = r)
  ∧ ((∀ r, b ≠ r ++ "/") → apiBaseSanitized b = b)
  ∧ (∀ r, b = r ++ "//" → apiBaseSanitized b = r ++ "/").
Proof.
  split; [|split].
  - intros r ->. apply apiBaseSanitized_slash.
  - apply apiBaseSanitized_other.
  - intros r ->. assert (E : r ++ "//" = (r ++ "/") ++ "/").
    { induction r as [|c r IH]; [done|].
      change (String c (r ++ "//") = String c ((r ++ "/") ++ "/")).
      by rewrite IH. }
    rewrite E. apply apiBaseSanitized_slash.
Qed.

Lemma apiBaseSanitized_cases_witness :
  apiBaseSanitized (DEFAULT_API_BASE ++ "/") = DEFAULT_API_BASE
  ∧ apiBaseSanitized (DEFAULT_API_BASE ++ "//") = DEFAULT_API_BASE ++ "/".
Proof.
  destruct (apiBaseSanitized_cases (DEFAULT_API_BASE ++ "/")) as (H1 & _).
  destruct (apiBaseSanitized_cases (DEFAULT_API_BASE ++ "//")) as (_ & _ & H3).
  split; [by apply H1|by apply H3].
Defined.

(** What was persisted comes back on the next mount; an emptied token or
    API base is not written, so what was stored before it comes back
    instead. *)
Theorem settings_round_trip (localStorage : gmap string string)
    (tok base : string) (cur : Settings) :
  let before := loadSettings localStorage cur in
  let after := loadSettings (persistApiBase base
                               (persistToken tok localStorage)) cur in
  stored_token after = (if String.eqb tok "" then stored_token before else tok)
  ∧ stored_apiBase after
    = (if String.eqb base "" then stored_apiBase before else base).
Proof.
  unfold loadSettings, persistApiBase, persistToken; simpl.
  destruct (String.eqb_spec tok "") as [->|Ht],
           (String.eqb_spec base "") as [->|Hb]; simpl;
    rewrite ?lookup_insert_eq, ?lookup_insert_ne by done;
    rewrite ?lookup_insert_eq;
    rewrite ?(eqb_empty_false _ Ht), ?(eqb_empty_false _ Hb); done.
Qed.

(** ** One item, from the create answer to polling *)

(** When the create request of a pending promise is answered and its upload
    then completes, every item with that id is at [polling] with the new
    [videoId] and exactly 100 percent, the promise is settled, a first
    status request for the new video is under way and the item's one
    registered interval polls for that video; the other items are as they
    were. *)
Theorem pipeline_success (s : App) (k : nat) (tk : Task) (v u : string) :
  uploads s !! k = Some tk → awaiting tk = AwaitCreate →
  ∃ s', run s [Created k v u; Uploaded k] = Some s'
    ∧ (∀ j it, items s !! j = Some it →
         ∃ it', items s' !! j = Some it'
           ∧ if decide (id it = id (item tk))
             then stage it' = polling ∧ videoId it' = Some v
                  ∧ progressPercent it' = 100%float
                  ∧ errorMessage it' = errorMessage it
             else it' = it)
    ∧ uploads s' !! k = Some {| item := item tk; awaiting := Settled |}
    ∧ last (requests s')
      = Some {| poll_item := id (item tk); poll_video := v |}
    ∧ pollTimers s' !! id (item tk) = Some (next (window s))
    ∧ active (window s') !! next (window s)
      = Some {| poll_item := id (item tk); poll_video := v |}.
Proof.
  intros Hk Ha. destruct tk as [x a]. simpl in Ha. subst a.
  eexists. split.
  { simpl. rewrite Hk. simpl. rewrite list_lookup_alter_eq, Hk. simpl. done. }
  split; [|split; [|split; [|split]]].
  - intros j it Hj. simpl. rewrite !updateItem_lookup, Hj. simpl.
    eexists. split; [done|]. by repeat case_decide.
  - simpl. rewrite !list_lookup_alter_eq, Hk. done.
  - simpl. by rewrite last_snoc.
  - simpl. by rewrite clearIfSet_next, lookup_insert_eq.
  - simpl. by rewrite clearIfSet_next, lookup_insert_eq.
Qed.

Lemma pipeline_success_witness :
  ∃ s', run (startUploads after_first_run)
          [Created 3 "v9" "https://bucket.example/9"; Uploaded 3] = Some s'
        ∧ pollTimers s' !! "1-1-b.mp4" = Some 2%N.
Proof.
  destruct (pipeline_success (startUploads after_first_run) 3
              {| item := default sample_item (items after_first_run !! 1%nat);
                 awaiting := AwaitCreate |}
              "v9" "https://bucket.example/9")
    as (s' & Hrun & _ & _ & _ & Hm & _); [vm_compute; reflexivity|reflexivity|].
  exists s'. split; [exact Hrun|]. exact Hm.
Defined.
